(** * Code indexing service: chunking, repository scan, indexing and search

    A shallow embedding of the Python service under
    [server/python-service] ([chunking.py], [config.py],
    [cocoindex_flow.py], [app.py]) together with the properties its
    specification states about it.

    Conventions of the embedding:
    - a Python [int] is a [Z]; a Python [str] is a [string];
    - a Python [dict] with string keys is a [gmap string _];
    - a [while] loop that the source does not bound is a function with
      fuel returning [option]: [None] stands for "fuel exhausted";
    - the file system, the embedding model and the data base are explicit
      components of the state or parameters of a [Section]. *)

From Stdlib Require Import ZArith QArith String Ascii List Lia Bool Sorted.
From Stdlib Require Import DecimalString Lqa.
From stdpp Require Import base list gmap strings sorting.

Local Open Scope string_scope.
Local Open Scope Z_scope.

(** ** Python string and list primitives used by the service *)

Module Py.

(** Values stored in the chunk metadata dictionary. *)
Inductive value : Type :=
| Int (z : Z)
| Bool (b : bool).

Definition newline : ascii := Ascii.ascii_of_nat 10.

(** [s.split('\n')]: never empty, one more piece than newlines. *)
Fixpoint split_lines (s : string) : list string :=
  match s with
  | EmptyString => [EmptyString]
  | String c s' =>
      if Ascii.eqb c newline then EmptyString :: split_lines s'
      else match split_lines s' with
           | l :: ls => String c l :: ls
           | [] => [String c EmptyString]
           end
  end.

(** ['\n'.join(ls)] *)
Definition join_lines (ls : list string) : string :=
  String.concat (String newline EmptyString) ls.

(** Slice bound normalisation of [l[lo:hi]] for a list of length [n]:
    a negative bound counts from the end, everything is clamped to
    [0..n]. *)
Definition clamp (n i : Z) : Z :=
  if i <? 0 then Z.max 0 (i + n) else Z.min i n.

(** [l[lo:hi]] *)
Definition slice {A} (l : list A) (lo hi : Z) : list A :=
  let n := Z.of_nat (length l) in
  let lo' := clamp n lo in
  let hi' := clamp n hi in
  take (Z.to_nat (hi' - lo')) (drop (Z.to_nat lo') l).

(** [l[:hi]] *)
Definition slice_to {A} (l : list A) (hi : Z) : list A := slice l 0 hi.

(** [str(n)] for an int. *)
Definition str (n : Z) : string := NilZero.string_of_int (Z.to_int n).

(** [s.rfind(c)] for a one-character needle: index of the last
    occurrence, [-1] when there is none. *)
Fixpoint rfind (c : ascii) (s : string) : Z :=
  match s with
  | EmptyString => -1
  | String a s' =>
      let r := rfind c s' in
      if 0 <=? r then r + 1
      else if Ascii.eqb a c then 0 else -1
  end.

Definition lower_ascii (a : ascii) : ascii :=
  let n := Ascii.nat_of_ascii a in
  if (andb (Nat.leb 65 n) (Nat.leb n 90)) then Ascii.ascii_of_nat (n + 32) else a.

(** [s.lower()], on the ASCII letters. *)
Fixpoint lower (s : string) : string :=
  match s with
  | EmptyString => EmptyString
  | String a s' => String (lower_ascii a) (lower s')
  end.

Fixpoint all_dots (s : string) : bool :=
  match s with
  | EmptyString => true
  | String a s' => andb (Ascii.eqb a ".") (all_dots s')
  end.

(** [os.path.splitext(p)[1]] on a POSIX path: the text from the last
    dot of the last component on, provided some character other than
    a dot precedes it in that component. *)
Definition splitext_ext (p : string) : string :=
  let sepIndex := rfind "/" p in
  let dotIndex := rfind "." p in
  if sepIndex <? dotIndex then
    let filenameIndex := Z.to_nat (sepIndex + 1) in
    let d := Z.to_nat dotIndex in
    if all_dots (String.substring filenameIndex (d - filenameIndex) p)
    then EmptyString
    else String.substring d (String.length p - d) p
  else EmptyString.

(** [needle in hay] for strings. *)
Fixpoint contains (needle hay : string) : bool :=
  orb (String.prefix needle hay)
      match hay with
      | EmptyString => false
      | String _ hay' => contains needle hay'
      end.

(** [s.replace(old, new)] for a non-empty [old]: occurrences are
    replaced left to right without overlap.  [skip] counts the
    characters of a match still to be dropped. *)
Fixpoint replace_from (old new : string) (skip : nat) (s : string) : string :=
  match s with
  | EmptyString => EmptyString
  | String a s' =>
      match skip with
      | S k => replace_from old new k s'
      | O =>
          if String.prefix old s
          then new +:+ replace_from old new (String.length old - 1) s'
          else String a (replace_from old new O s')
      end
  end.

Definition replace (old new s : string) : string := replace_from old new O s.

(** [os.path.join(a, b)] for a relative [b]. *)
Definition path_join (a b : string) : string :=
  if orb (String.eqb a EmptyString) (String.prefix "/" (String.string_of_list_ascii (rev (String.list_ascii_of_string a))))
  then a +:+ b
  else a +:+ "/" +:+ b.

End Py.

(** ** chunking.py *)

Module Chunking.

(** A chunk dictionary as built by [chunk_code]. *)
Record Chunk : Type := mkChunk {
  file_path : string;
  chunk_text : string;
  chunk_type : string;
  start_line : Z;
  end_line : Z;
  language : string;
  metadata : gmap string Py.value
}.

Definition lang_map : gmap string string :=
  list_to_map
    [ (".js", "javascript"); (".jsx", "javascript");
      (".ts", "typescript"); (".tsx", "typescript");
      (".py", "python"); (".java", "java"); (".kt", "kotlin");
      (".swift", "swift"); (".go", "go"); (".rs", "rust");
      (".rb", "ruby"); (".php", "php"); (".c", "c"); (".cpp", "cpp");
      (".h", "c"); (".hpp", "cpp"); (".cs", "csharp");
      (".scala", "scala"); (".clj", "clojure") ].

Definition get_language_from_extension (filename : string) : string :=
  let ext := Py.lower (Py.splitext_ext filename) in
  default "unknown" (lang_map !! ext).

Definition whole_file_chunk (file_path content language : string)
    (total_lines : Z) : Chunk :=
  {| file_path := file_path;
     chunk_text := content;
     chunk_type := "whole_file";
     start_line := 1;
     end_line := total_lines;
     language := language;
     metadata := <["total_lines" := Py.Int total_lines]>
                 (<["is_truncated" := Py.Bool false]> ∅) |}.

Definition window_chunk (file_path language : string) (lines : list string)
    (total_lines chunk_num start_line end_line : Z) : Chunk :=
  {| file_path := file_path;
     chunk_text := Py.join_lines (Py.slice lines start_line end_line);
     chunk_type := "chunk_" +:+ Py.str chunk_num;
     start_line := start_line + 1;
     end_line := end_line;
     language := language;
     metadata := <["total_lines" := Py.Int total_lines]>
                 (<["chunk_number" := Py.Int chunk_num]>
                 (<["total_chunks" := Py.Int (-1)]>
                 (<["is_truncated" := Py.Bool (end_line <? total_lines)]> ∅))) |}.

(** The sliding-window [while] loop of [chunk_code].  [chunks] is the
    list built so far, [chunk_num] and [start] the loop variables. *)
Fixpoint window_loop (fuel : nat) (file_path language : string)
    (lines : list string) (total_lines max_chunk_size chunk_overlap : Z)
    (chunk_num start : Z) (chunks : list Chunk) : option (list Chunk) :=
  match fuel with
  | O => None
  | S fuel' =>
      if start <? total_lines then
        let end_ := Z.min (start + max_chunk_size) total_lines in
        let chunks' :=
          (chunks ++ [window_chunk file_path language lines total_lines
                        chunk_num start end_])%list in
        if total_lines <=? end_ then Some chunks'
        else window_loop fuel' file_path language lines total_lines
               max_chunk_size chunk_overlap (chunk_num + 1)
               (end_ - chunk_overlap) chunks'
      else Some chunks
  end.

(** [chunk['metadata']['total_chunks'] = len(chunks)] *)
Definition set_total_chunks (n : Z) (c : Chunk) : Chunk :=
  {| file_path := file_path c;
     chunk_text := chunk_text c;
     chunk_type := chunk_type c;
     start_line := start_line c;
     end_line := end_line c;
     language := language c;
     metadata := <["total_chunks" := Py.Int n]> (metadata c) |}.

Definition fill_total_chunks (chunks : list Chunk) : list Chunk :=
  set_total_chunks (Z.of_nat (length chunks)) <$> chunks.

(** [chunk_code], with the fuel of its loop. *)
Definition chunk_code_fuel (fuel : nat) (file_path content : string)
    (max_chunk_size chunk_overlap : Z) : option (list Chunk) :=
  let lines := Py.split_lines content in
  let total_lines := Z.of_nat (length lines) in
  let language := get_language_from_extension file_path in
  if total_lines <=? max_chunk_size then
    Some [whole_file_chunk file_path content language total_lines]
  else
    fill_total_chunks <$>
      window_loop fuel file_path language lines total_lines
        max_chunk_size chunk_overlap 0 0 [].

(** Fuel that suffices whenever the loop terminates at all (see
    [chunk_code_adequate]): the window start grows by at least one
    line per iteration, so there are at most [total_lines] of them,
    and one more test of the loop condition. *)
Definition chunk_code (file_path content : string)
    (max_chunk_size chunk_overlap : Z) : option (list Chunk) :=
  chunk_code_fuel (S (length (Py.split_lines content))) file_path content
    max_chunk_size chunk_overlap.

(** [try_tree_sitter_parse] is a placeholder returning [None]. *)
Definition try_tree_sitter_parse (file_path content language : string)
    : option (list Chunk) := None.

Definition smart_chunk (file_path content : string)
    (max_chunk_size chunk_overlap : Z) (use_tree_sitter : bool)
    : option (list Chunk) :=
  let language := get_language_from_extension file_path in
  let fallback := chunk_code file_path content max_chunk_size chunk_overlap in
  if use_tree_sitter then
    match try_tree_sitter_parse file_path content language with
    | Some (c :: cs) => Some (c :: cs)
    | _ => fallback
    end
  else fallback.

(** The loop as a derivation.  [emits ... n start cs]: entered with
    loop variables [chunk_num = n] and [start_line = start], the loop
    appends exactly [cs] and exits. *)
Inductive emits (fp lang : string) (lines : list string)
    (total max_chunk_size chunk_overlap : Z) : Z → Z → list Chunk → Prop :=
| emits_exit n start :
    total <= start →
    emits fp lang lines total max_chunk_size chunk_overlap n start []
| emits_break n start :
    start < total →
    total <= Z.min (start + max_chunk_size) total →
    emits fp lang lines total max_chunk_size chunk_overlap n start
      [window_chunk fp lang lines total n start
         (Z.min (start + max_chunk_size) total)]
| emits_next n start cs :
    start < total →
    Z.min (start + max_chunk_size) total < total →
    emits fp lang lines total max_chunk_size chunk_overlap (n + 1)
      (Z.min (start + max_chunk_size) total - chunk_overlap) cs →
    emits fp lang lines total max_chunk_size chunk_overlap n start
      (window_chunk fp lang lines total n start
         (Z.min (start + max_chunk_size) total) :: cs).

(** [len(content.split('\n'))] *)
Definition total_lines (content : string) : Z :=
  Z.of_nat (length (Py.split_lines content)).

(** [c] is the [i]-th window of the sliding scheme: it starts at
    0-based offset [i * (max_chunk_size - chunk_overlap)] and ends at
    [min (offset + max_chunk_size) total]. *)
Definition is_window (content : string) (max_chunk_size chunk_overlap : Z)
    (i : nat) (c : Chunk) : Prop :=
  let offset := Z.of_nat i * (max_chunk_size - chunk_overlap) in
  let stop := Z.min (offset + max_chunk_size) (total_lines content) in
  start_line c = offset + 1 ∧
  end_line c = stop ∧
  chunk_type c = "chunk_" +:+ Py.str (Z.of_nat i) ∧
  chunk_text c = Py.join_lines (Py.slice (Py.split_lines content) offset stop).

(** The sliding-window output: every chunk is its window, the last
    chunk (and only the last) ends at the last line, no chunk is empty,
    and each chunk starts [chunk_overlap] lines before the end of its
    predecessor. *)
Definition sliding_windows (content : string) (max_chunk_size chunk_overlap : Z)
    (cs : list Chunk) : Prop :=
  (∀ (i : nat) c, cs !! i = Some c → is_window content max_chunk_size chunk_overlap i c) ∧
  (∃ c, last cs = Some c ∧ end_line c = total_lines content) ∧
  (∀ (i : nat) c, cs !! i = Some c → (S i < length cs)%nat →
     end_line c < total_lines content) ∧
  (∀ c, c ∈ cs → start_line c <= end_line c) ∧
  (∀ (i : nat) c c', cs !! i = Some c → cs !! S i = Some c' →
     end_line c - start_line c' + 1 = chunk_overlap).

(** The ranges of [cs] cover the lines [1..total] without a gap. *)
Definition covers (total : Z) (cs : list Chunk) : Prop :=
  (∀ line, 1 <= line <= total →
     ∃ c, c ∈ cs ∧ start_line c <= line <= end_line c) ∧
  (∀ (i : nat) c c', cs !! i = Some c → cs !! S i = Some c' →
     start_line c' <= end_line c + 1).

(** The metadata of the chunks of one file is consistent: each carries
    the number of chunks and its own 0-based position. *)
Definition numbered (cs : list Chunk) : Prop :=
  ∀ (i : nat) c, cs !! i = Some c →
    metadata c !! "total_chunks" = Some (Py.Int (Z.of_nat (length cs))) ∧
    metadata c !! "chunk_number" = Some (Py.Int (Z.of_nat i)).

(** A chunk without [chunk_number] and [total_chunks]. *)
Definition unnumbered (c : Chunk) : Prop :=
  metadata c !! "total_chunks" = None ∧ metadata c !! "chunk_number" = None.

(** The 1-based inclusive line range of a chunk. *)
Definition line_range (c : Chunk) : Z * Z := (start_line c, end_line c).

(** A content of [n+1] empty lines. *)
Definition blank_lines (n : nat) : string :=
  String.string_of_list_ascii (replicate n Py.newline).

End Chunking.


(** ** config.py *)

Module Config.

Definition DEFAULT_MAX_CHUNK_SIZE : Z := 500.
Definition DEFAULT_CHUNK_OVERLAP : Z := 100.

Definition INDEXABLE_EXTENSIONS : list string :=
  [ ".js"; ".jsx"; ".ts"; ".tsx";
    ".py"; ".swift"; ".kt"; ".java";
    ".go"; ".rs"; ".rb"; ".php";
    ".c"; ".cpp"; ".h"; ".hpp";
    ".cs"; ".scala"; ".clj";
    ".vue"; ".svelte" ].

Definition SKIP_PATTERNS : list string :=
  [ "**/node_modules/**";
    "**/dist/**";
    "**/build/**";
    "**/*.min.js";
    "**/*.lock";
    "**/vendor/**";
    "**/.git/**";
    "**/target/**";
    "**/__pycache__/**";
    "**/venv/**";
    "**/coverage/**";
    "**/.next/**";
    "**/.cache/**" ].

End Config.

(** ** The file system seen by the service *)

Module Fs.

(** An entry of a directory, under the name its parent lists it by.  A
    file carries its text ([None] when it cannot be opened, read or
    decoded as UTF-8) and its modification time; a directory lists its
    entries in the order [os.walk] reports them.  The name of a root is
    not used: a root is reached by the path given to the service. *)
#[warnings="-register-all"]
Inductive node : Type :=
| File (name : string) (content : option string) (mtime : Q)
| Dir (name : string) (entries : list node).

Definition name_of (n : node) : string :=
  match n with File name _ _ => name | Dir name _ => name end.

Definition is_dir (n : node) : bool :=
  match n with Dir _ _ => true | File _ _ _ => false end.

(** Every file below the directory [n] that lies at [root], with its
    path. *)
Fixpoint files (root : string) (n : node) : list (string * (option string * Q)) :=
  match n with
  | File _ _ _ => []
  | Dir _ entries =>
      flat_map (fun e =>
        match e with
        | File name content mtime => [(Py.path_join root name, (content, mtime))]
        | Dir name _ => files (Py.path_join root name) e
        end) entries
  end.

Fixpoint assoc {A} (k : string) (l : list (string * A)) : option A :=
  match l with
  | [] => None
  | (k', a) :: l' => if String.eqb k k' then Some a else assoc k l'
  end.

(** The file system maps the paths handed to the service to what lies
    there; [os.path.exists] is definedness. *)
Definition exists_ (fs : gmap string node) (path : string) : bool :=
  bool_decide (is_Some (fs !! path)).

(** The file at [file_path] below the repository root [repo_path]. *)
Definition lookup_file (fs : gmap string node) (repo_path file_path : string)
    : option (option string * Q) :=
  match fs !! repo_path with
  | Some n => assoc file_path (files repo_path n)
  | None => None
  end.

Fixpoint lstrip_sep (s : string) : string :=
  match s with
  | String c s' => if Ascii.eqb c "/" then lstrip_sep s' else s
  | EmptyString => s
  end.

(** [os.path.relpath(path, start)] for a [path] obtained by joining
    entry names onto [start], which is how the service calls it: the
    joined names. *)
Definition relpath (path start : string) : string :=
  if String.prefix start path then
    let rest := lstrip_sep (String.substring (String.length start)
                  (String.length path - String.length start) path) in
    if String.eqb rest EmptyString then "." else rest
  else path.

End Fs.

(** ** cocoindex_flow.py *)

(** A row of the table [code_chunks].  The columns [id] and
    [indexed_at] are filled by the data base and play no role below. *)
Module Row.
Record t (Embedding : Type) : Type := mk {
  repo_path : string;
  file_path : string;
  chunk_text : string;
  chunk_type : string;
  start_line : Z;
  end_line : Z;
  language : string;
  metadata : gmap string Py.value;
  embedding : Embedding;
  file_mtime : Q
}.
Arguments mk {Embedding}.
Arguments repo_path {Embedding}.
Arguments file_path {Embedding}.
Arguments chunk_text {Embedding}.
Arguments chunk_type {Embedding}.
Arguments start_line {Embedding}.
Arguments end_line {Embedding}.
Arguments language {Embedding}.
Arguments metadata {Embedding}.
Arguments embedding {Embedding}.
Arguments file_mtime {Embedding}.
End Row.

(** A search result dictionary. *)
Module Result.
Record t : Type := mk {
  file_path : string;
  chunk_text : string;
  chunk_type : string;
  start_line : Z;
  end_line : Z;
  language : string;
  score : Q;
  description : string
}.
End Result.

(** The dictionary returned by [index_repository]. *)
Module Stats.
Record t : Type := mk {
  repo_path : string;
  files_indexed : Z;
  chunks_created : Z;
  files_found : Z
}.
End Stats.

Module Flow.

Inductive exn : Type :=
| ValueError (msg : string)
| ModelError
| DatabaseError
| IndexError.

(** How a call ends: it returns, raises, or (a chunking loop without
    forward progress) never ends. *)
Inductive outcome (A : Type) : Type :=
| Return (a : A)
| Raise (e : exn)
| Diverge.
Arguments Return {A}.
Arguments Raise {A}.
Arguments Diverge {A}.

(** Calls act on the table as seen through the service's single
    connection: the rows inserted and not deleted so far, in insertion
    order.  The state reached is kept when a call raises. *)
Definition M (S A : Type) : Type := S → outcome A * S.

Definition ret {S A} (a : A) : M S A := fun db => (Return a, db).
Definition raise {S A} (e : exn) : M S A := fun db => (Raise e, db).
Definition diverge {S A} : M S A := fun db => (Diverge, db).
Definition bind {S A B} (m : M S A) (k : A → M S B) : M S B :=
  fun db =>
    match m db with
    | (Return a, db') => k a db'
    | (Raise e, db') => (Raise e, db')
    | (Diverge, db') => (Diverge, db')
    end.

(** [try: m except Exception as e: h e] *)
Definition try_except {S A} (m : M S A) (h : exn → M S A) : M S A :=
  fun db =>
    match m db with
    | (Raise e, db') => h e db'
    | r => r
    end.

#[export] Instance M_ret {S} : MRet (M S) := @ret S.
#[export] Instance M_bind {S} : MBind (M S) := fun A B k m => bind m k.

Section Service.

(** The collaborators and the configured sizes.  [encode] is
    [SentenceTransformer.encode] ([None] when it raises),
    [cosine_distance] the operator [<=>] of the vector extension (a
    score is the rational value of the float the data base computes),
    [storable] tells whether the data base accepts the [INSERT] of a
    row, [MAX_CHUNK_SIZE] and [CHUNK_OVERLAP] are read from the
    environment by [config.py].

    The connection is taken to be alive: a statement fails only for
    what it is given (a row that is refused, a negative [LIMIT]).
    [commit] is not modelled: it does not change the rows the
    connection itself sees, and the source never rolls back. *)
Context {Embedding : Type}.
Variable encode : list string → option (list Embedding).
Variable cosine_distance : Embedding → Embedding → Q.
Variable storable : Row.t Embedding → bool.
Variables MAX_CHUNK_SIZE CHUNK_OVERLAP : Z.
Variable fs : gmap string Fs.node.

Abbreviation Db := (list (Row.t Embedding)).

Definition _should_skip (path repo_path : string) : bool :=
  let rel_path := Fs.relpath path repo_path in
  existsb (fun pattern =>
    let pattern_clean := Py.replace "/**" "" (Py.replace "**/" "" pattern) in
    Py.contains pattern_clean rel_path) Config.SKIP_PATTERNS.

Definition _should_index (file_path : string) : bool :=
  let ext := Py.lower (Py.splitext_ext file_path) in
  existsb (String.eqb ext) Config.INDEXABLE_EXTENSIONS.

(** The body of the [os.walk] loop of [_collect_files], for the
    directory [n] lying at [root]: the indexable files of [root] in
    listing order, then the sub-directories that are not pruned. *)
Fixpoint walk (repo_path root : string) (n : Fs.node) : list string :=
  match n with
  | Fs.File _ _ _ => []
  | Fs.Dir _ entries =>
      let filenames :=
        Fs.name_of <$> List.filter (fun e => negb (Fs.is_dir e)) entries in
      (List.filter _should_index (Py.path_join root <$> filenames) ++
       flat_map (fun d =>
         match d with
         | Fs.Dir name _ =>
             if _should_skip (Py.path_join root name) repo_path then []
             else walk repo_path (Py.path_join root name) d
         | Fs.File _ _ _ => []
         end) entries)%list
  end.

Definition _collect_files (repo_path : string) : list string :=
  match fs !! repo_path with
  | Some n => walk repo_path repo_path n
  | None => []
  end.

Definition _clear_repo_index (repo_path : string) : M Db unit :=
  fun db =>
    (Return (), List.filter (fun r => negb (String.eqb (Row.repo_path r) repo_path)) db).

(** One [cur.execute("INSERT ...")]. *)
Definition execute_insert (r : Row.t Embedding) : M Db unit :=
  fun db => if storable r then (Return (), db ++ [r])%list else (Raise DatabaseError, db).

(** The values bound to one [INSERT]. *)
Definition chunk_row (repo_path rel_file_path : string) (file_mtime : Q)
    (chunk : Chunking.Chunk) (embedding : Embedding) : Row.t Embedding :=
  {| Row.repo_path := repo_path;
     Row.file_path := rel_file_path;
     Row.chunk_text := Chunking.chunk_text chunk;
     Row.chunk_type := Chunking.chunk_type chunk;
     Row.start_line := Chunking.start_line chunk;
     Row.end_line := Chunking.end_line chunk;
     Row.language := Chunking.language chunk;
     Row.metadata := Chunking.metadata chunk;
     Row.embedding := embedding;
     Row.file_mtime := file_mtime |}.

Fixpoint insert_chunks (repo_path rel_file_path : string) (file_mtime : Q)
    (pairs : list (Chunking.Chunk * Embedding)) : M Db unit :=
  match pairs with
  | [] => mret ()
  | (chunk, embedding) :: pairs' =>
      execute_insert (chunk_row repo_path rel_file_path file_mtime chunk embedding);;
      insert_chunks repo_path rel_file_path file_mtime pairs'
  end.

Definition _index_file (repo_path file_path : string) : M Db Z :=
  match Fs.lookup_file fs repo_path file_path with
  | None | Some (None, _) => mret 0
  | Some (Some content, file_mtime) =>
      let rel_file_path := Fs.relpath file_path repo_path in
      match Chunking.smart_chunk rel_file_path content
              MAX_CHUNK_SIZE CHUNK_OVERLAP false with
      | None => diverge
      | Some [] => mret 0
      | Some chunks =>
          match encode (Chunking.chunk_text <$> chunks) with
          | None => raise ModelError
          | Some embeddings =>
              insert_chunks repo_path rel_file_path file_mtime
                (zip chunks embeddings);;
              mret (Z.of_nat (length chunks))
          end
      end
  end.

(** The [for file_path in files_to_index] loop, with its counters. *)
Fixpoint index_files (repo_path : string) (files_to_index : list string)
    (indexed_count chunk_count : Z) : M Db (Z * Z) :=
  match files_to_index with
  | [] => mret (indexed_count, chunk_count)
  | file_path :: rest =>
      counts ← try_except
                 (chunks_added ← _index_file repo_path file_path;
                  mret (if 0 <? chunks_added
                        then (indexed_count + 1, chunk_count + chunks_added)
                        else (indexed_count, chunk_count)))
                 (fun _ => mret (indexed_count, chunk_count));
      index_files repo_path rest (fst counts) (snd counts)
  end.

Definition index_repository (repo_path : string) (force : bool) : M Db Stats.t :=
  if negb (Fs.exists_ fs repo_path) then
    raise (ValueError ("Repository path does not exist: " +:+ repo_path))
  else
    (if force then _clear_repo_index repo_path else mret ());;
    let files_to_index := _collect_files repo_path in
    counts ← index_files repo_path files_to_index 0 0;
    mret {| Stats.repo_path := repo_path;
            Stats.files_indexed := fst counts;
            Stats.chunks_created := snd counts;
            Stats.files_found := Z.of_nat (length files_to_index) |}.

(** [ORDER BY embedding <=> q]: insertion into a list ordered by
    increasing distance to [q], before the first row that is not
    nearer. *)
Fixpoint insert_by_distance (q : Embedding) (r : Row.t Embedding)
    (ordered : list (Row.t Embedding)) : list (Row.t Embedding) :=
  match ordered with
  | [] => [r]
  | r' :: rest =>
      if Qle_bool (cosine_distance (Row.embedding r) q)
                  (cosine_distance (Row.embedding r') q)
      then r :: r' :: rest
      else r' :: insert_by_distance q r rest
  end.

Definition order_by_distance (q : Embedding) (rows : list (Row.t Embedding))
    : list (Row.t Embedding) :=
  foldr (insert_by_distance q) [] rows.

(** The [SELECT] of [search]: the rows of the repository, nearest
    first, at most [k] of them, each with
    [score = 1 - (embedding <=> q)].  A negative [LIMIT] is an error of
    the data base. *)
Definition select_nearest (q : Embedding) (repo_path : string) (k : Z)
    : M Db (list (Row.t Embedding * Q)) :=
  fun db =>
    if k <? 0 then (Raise DatabaseError, db)
    else
      let rows := List.filter (fun r => String.eqb (Row.repo_path r) repo_path) db in
      (Return ((fun r => (r, (1 - cosine_distance (Row.embedding r) q)%Q)) <$>
                 take (Z.to_nat k) (order_by_distance q rows)), db).

Definition format_result (row : Row.t Embedding * Q) : Result.t :=
  {| Result.file_path := Row.file_path (fst row);
     Result.chunk_text := Row.chunk_text (fst row);
     Result.chunk_type := Row.chunk_type (fst row);
     Result.start_line := Row.start_line (fst row);
     Result.end_line := Row.end_line (fst row);
     Result.language := Row.language (fst row);
     Result.score := snd row;
     Result.description :=
       Row.chunk_type (fst row) +:+ " (lines " +:+ Py.str (Row.start_line (fst row))
         +:+ "-" +:+ Py.str (Row.end_line (fst row)) +:+ ")" |}.

Definition search (query repo_path : string) (limit : Z) (threshold : Q)
    : M Db (list Result.t) :=
  match encode [query] with
  | None => raise ModelError
  | Some [] => raise IndexError
  | Some (query_embedding :: _) =>
      results ← select_nearest query_embedding repo_path (limit * 2);
      let filtered_results :=
        format_result <$> List.filter (fun row => Qle_bool threshold (snd row)) results in
      mret (Py.slice_to filtered_results limit)
  end.

End Service.
End Flow.

(** ** app.py *)

Module App.
Import Flow.

Inductive response : Type :=
| ReindexOk (files_updated chunks_created : Z) (duration_seconds : Q)
| Failure (status : Z) (error : string).

(** [str(e)] *)
Definition message (e : exn) : string :=
  match e with
  | ValueError msg => msg
  | ModelError => "embedding model error"
  | DatabaseError => "database error"
  | IndexError => "list index out of range"
  end.

Section Handlers.

Context {Embedding : Type}.
Variable encode : list string → option (list Embedding).
Variable storable : Row.t Embedding → bool.
Variables MAX_CHUNK_SIZE CHUNK_OVERLAP : Z.
Variable fs : gmap string Fs.node.

Abbreviation Db := (list (Row.t Embedding)).
Abbreviation index_repository :=
  (Flow.index_repository encode storable MAX_CHUNK_SIZE CHUNK_OVERLAP fs).

(** The handler of [POST /reindex].  [flow] tells whether the global
    [flow] was initialised, [repo_path] is [data.get('repo_path')],
    [duration] the wall-clock time measured around the call, rounded. *)
Definition reindex (flow : bool) (repo_path : option string) (duration : Q)
    : M Db response :=
  if negb flow then mret (Failure 500 "Service not initialized")
  else
    match repo_path with
    | None | Some EmptyString => mret (Failure 400 "repo_path is required")
    | Some repo_path =>
        try_except
          (stats ← index_repository repo_path true;
           mret (ReindexOk (Stats.files_indexed stats)
                   (Stats.chunks_created stats) duration))
          (fun e => mret (Failure 500 (message e)))
    end.

(** What the specification says [/reindex] is: a forced full index.
    It fails when the path does not exist; otherwise all prior rows of
    the repository are deleted and every matching file is read, chunked
    and embedded again, as by a scan into an empty table: nothing
    already stored (no modification time) is consulted.  The answer
    reports the files and chunks of that scan. *)
Definition forced_full_index (repo_path : string) (duration : Q)
    : M Db response :=
  fun db =>
    if negb (Fs.exists_ fs repo_path) then
      (Return (Failure 500 ("Repository path does not exist: " +:+ repo_path)), db)
    else
      let kept :=
        List.filter (fun r => negb (String.eqb (Row.repo_path r) repo_path)) db in
      match index_repository repo_path false [] with
      | (Return stats, fresh) =>
          (Return (ReindexOk (Stats.files_indexed stats)
                     (Stats.chunks_created stats) duration), (kept ++ fresh)%list)
      | (Raise e, fresh) => (Return (Failure 500 (message e)), (kept ++ fresh)%list)
      | (Diverge, fresh) => (Diverge, (kept ++ fresh)%list)
      end.

End Handlers.
End App.

(** ** cocoindex_flow.py and app.py: the other queries and handlers *)

Module Status.
Import Flow.

(** [is_repository_indexed]: [SELECT COUNT( * ) ... WHERE repo_path = %s],
    then [count > 0]. *)
Definition is_repository_indexed {Embedding : Type} (repo_path : string)
    : M (list (Row.t Embedding)) bool :=
  fun db =>
    let count :=
      Z.of_nat (length (List.filter
                          (fun r => String.eqb (Row.repo_path r) repo_path) db)) in
    (Return (0 <? count), db).

End Status.

Module Endpoints.
Import Flow.

(** What a handler answers: the body of a 200 response, or a status
    with an error message. *)
Inductive reply (A : Type) : Type :=
| Ok (body : A)
| Failure (status : Z) (error : string).
Arguments Ok {A}.
Arguments Failure {A}.

Section Handlers.

Context {Embedding : Type}.
Variable encode : list string → option (list Embedding).
Variable cosine_distance : Embedding → Embedding → Q.
Variable storable : Row.t Embedding → bool.
Variables MAX_CHUNK_SIZE CHUNK_OVERLAP : Z.
Variable fs : gmap string Fs.node.

Abbreviation Db := (list (Row.t Embedding)).

(** [not s] for an optional string field of the request body. *)
Definition missing (field : option string) : bool :=
  match field with
  | None | Some EmptyString => true
  | Some _ => false
  end.

(** The handler of [POST /index].  [flow] tells whether the global
    [flow] was initialised; [repo_path] and [force] are
    [data.get('repo_path')] and [data.get('force', False)]; [duration]
    is the wall-clock time measured around the call, rounded.  The body
    is the statistics with [duration_seconds]. *)
Definition index_repository (flow : bool) (repo_path : option string)
    (force : option bool) (duration : Q) : M Db (reply (Stats.t * Q)) :=
  if negb flow then mret (Failure 500 "Service not initialized")
  else if missing repo_path then mret (Failure 400 "repo_path is required")
  else
    try_except
      (stats ← Flow.index_repository encode storable MAX_CHUNK_SIZE CHUNK_OVERLAP fs
                 (default EmptyString repo_path) (default false force);
       mret (Ok (stats, duration)))
      (fun e => mret (Failure 500 (App.message e))).

(** The handler of [POST /check-indexed]; the body is [indexed] and
    [repo_path]. *)
Definition check_indexed (flow : bool) (repo_path : option string)
    : M Db (reply (bool * string)) :=
  if negb flow then mret (Failure 500 "Service not initialized")
  else if missing repo_path then mret (Failure 400 "repo_path is required")
  else
    try_except
      (indexed ← Status.is_repository_indexed (default EmptyString repo_path);
       mret (Ok (indexed, default EmptyString repo_path)))
      (fun e => mret (Failure 500 (App.message e))).

(** The handler of [POST /search]; [limit] and [threshold] default to
    10 and 0.7 when the body has no such key.  The body is [results],
    [count] and [duration_ms]. *)
Definition search (flow : bool) (query repo_path : option string)
    (limit : option Z) (threshold : option Q) (duration_ms : Q)
    : M Db (reply (list Result.t * Z * Q)) :=
  if negb flow then mret (Failure 500 "Service not initialized")
  else if missing query then mret (Failure 400 "query is required")
  else if missing repo_path then mret (Failure 400 "repo_path is required")
  else
    try_except
      (results ← Flow.search encode cosine_distance
                   (default EmptyString query) (default EmptyString repo_path)
                   (default 10 limit) (default (7 # 10)%Q threshold);
       mret (Ok (results, Z.of_nat (length results), duration_ms)))
      (fun e => mret (Failure 500 (App.message e))).

End Handlers.
End Endpoints.

(** ** Notions used to state the properties *)

Module Spec.
Import Flow.

(** [m] neither reads the table nor removes from it: started on [db]
    it ends as when started on the empty table, with the rows it
    inserts appended to [db]. *)
Definition framed {R A} (m : M (list R) A) : Prop :=
  ∀ db, m db = (fst (m []), (db ++ snd (m []))%list).

Section Service.
Context {Embedding : Type}.
Variable encode : list string → option (list Embedding).
Variable storable : Row.t Embedding → bool.
Variables MAX_CHUNK_SIZE CHUNK_OVERLAP : Z.
Variable fs : gmap string Fs.node.

(** What [_index_file] answers for a file, and the rows it inserts. *)
Definition file_outcome (repo_path file_path : string) : outcome Z :=
  fst (_index_file encode storable MAX_CHUNK_SIZE CHUNK_OVERLAP fs repo_path file_path []).

Definition file_rows (repo_path file_path : string) : list (Row.t Embedding) :=
  snd (_index_file encode storable MAX_CHUNK_SIZE CHUNK_OVERLAP fs repo_path file_path []).

(** The chunks a file adds to the counters of [index_repository]. *)
Definition gain (repo_path file_path : string) : Z :=
  match file_outcome repo_path file_path with
  | Return n => if 0 <? n then n else 0
  | _ => 0
  end.

Definition files_indexed_of (repo_path : string) (files : list string) : Z :=
  Z.of_nat (length (List.filter (fun f => 0 <? gain repo_path f) files)).

Definition chunks_created_of (repo_path : string) (files : list string) : Z :=
  fold_right Z.add 0 (gain repo_path <$> files).

(** The rows of the other repositories, which a forced index keeps. *)
Definition others (repo_path : string) (db : list (Row.t Embedding)) : list (Row.t Embedding) :=
  List.filter (fun r => negb (String.eqb (Row.repo_path r) repo_path)) db.

End Service.

(** The directories [os.walk] reaches from the top of the repository:
    the top itself, and every sub-directory of a directory reached that
    [_should_skip] does not prune. *)
Inductive visited (repo_path : string) (top : Fs.node) : string → Fs.node → Prop :=
| visited_top : visited repo_path top repo_path top
| visited_sub root name entries name' entries' :
    visited repo_path top root (Fs.Dir name entries) →
    Fs.Dir name' entries' ∈ entries →
    _should_skip (Py.path_join root name') repo_path = false →
    visited repo_path top (Py.path_join root name') (Fs.Dir name' entries').

(** Results ranked by descending score. *)
Definition ranked (results : list Result.t) : Prop :=
  StronglySorted (fun a b => (Result.score b <= Result.score a)%Q) results.

(** [a] is at most as far from the query embedding [q] as [b]. *)
Definition nearer {Embedding : Type} (cosine_distance : Embedding → Embedding → Q)
    (q : Embedding) (a b : Row.t Embedding) : Prop :=
  (cosine_distance (Row.embedding a) q <= cosine_distance (Row.embedding b) q)%Q.

(** Candidates as the data base returns them: best score first. *)
Definition best_first {Embedding : Type} (candidates : list (Row.t Embedding * Q)) : Prop :=
  StronglySorted (fun a b => (snd b <= snd a)%Q) candidates.

End Spec.

(** ** A small repository *)

Module Demo.

(** Embeddings are the text lengths; a text containing ["<unencodable>"]
    makes the model raise, a chunk containing ["<rejected>"] is refused
    by the data base. *)
Definition encode (texts : list string) : option (list Z) :=
  if existsb (Py.contains "<unencodable>") texts then None
  else Some ((fun t => Z.of_nat (String.length t)) <$> texts).

Definition storable (r : Row.t Z) : bool :=
  negb (Py.contains "<rejected>" (Row.chunk_text r)).

Definition cosine_distance (a b : Z) : Q := inject_Z (Z.abs (a - b)) / 10.

Definition repo : Fs.node :=
  Fs.Dir "repo"
    [ Fs.File "ok.py" (Some "print(1)") 10;
      Fs.File "binary.py" None 11;
      Fs.File "model.py" (Some "x = '<unencodable>'") 12;
      Fs.File "store.py" (Some "y = '<rejected>'") 13;
      Fs.File "x.min.js" (Some "var a=1;") 14;
      Fs.File "yarn.lock" (Some "lock") 15;
      Fs.Dir "node_modules" [ Fs.File "dep.js" (Some "dep") 16 ];
      Fs.Dir "src" [ Fs.File "lib.min.js" (Some "var b=2;") 17 ] ].

Definition fs : gmap string Fs.node := {[ "/repo" := repo ]}.

Definition stored (repo_path file_path text : string) (embedding : Z) : Row.t Z :=
  {| Row.repo_path := repo_path;
     Row.file_path := file_path;
     Row.chunk_text := text;
     Row.chunk_type := "whole_file";
     Row.start_line := 1;
     Row.end_line := 1;
     Row.language := "python";
     Row.metadata := ∅;
     Row.embedding := embedding;
     Row.file_mtime := 1 |}.

Definition db : list (Row.t Z) :=
  [ stored "/repo" "old.py" "old" 3; stored "/other" "a.py" "abc" 3 ].

(** A table to search with the query ["parse"], whose embedding is 5:
    the scores in ["/repo"] are 1/2, 1 and 7/10. *)
Definition indexed : list (Row.t Z) :=
  [ stored "/repo" "far.py" "0123456789" 10;
    stored "/other" "same.py" "01234" 5;
    stored "/repo" "same.py" "01234" 5;
    stored "/repo" "near.py" "01234567" 8 ].

End Demo.

(** * Properties

    ** The sliding window loop and its derivations *)

Module Window.
Import Chunking.

Section Loop.
Variables (fp lang : string) (lines : list string).
Variables (total max_chunk_size chunk_overlap : Z).

Abbreviation chunk_at := (window_chunk fp lang lines total).
Abbreviation loop fuel := (window_loop fuel fp lang lines total max_chunk_size chunk_overlap).

Abbreviation emits := (Chunking.emits fp lang lines total max_chunk_size chunk_overlap).

Lemma loop_emits fuel : ∀ n start chunks r,
  loop fuel n start chunks = Some r →
  ∃ cs, r = (chunks ++ cs)%list ∧ emits n start cs.
Proof.
  induction fuel as [|fuel IH]; intros n start chunks r; simpl; [discriminate|].
  destruct (Z.ltb_spec start total) as [Hlt|Hge].
  - destruct (Z.leb_spec total (Z.min (start + max_chunk_size) total)) as [Hb|Hc].
    + intros [= <-]. eexists; split; [reflexivity|]. by apply emits_break.
    + intros Hr. apply IH in Hr as (cs & -> & Hcs).
      eexists; split; [by rewrite <- app_assoc|]. by apply emits_next.
  - intros [= <-]. exists []. split; [by rewrite app_nil_r|]. by apply emits_exit.
Qed.

Lemma emits_loop n start cs :
  emits n start cs →
  ∀ fuel chunks, (length cs < fuel)%nat →
    loop fuel n start chunks = Some (chunks ++ cs)%list.
Proof.
  induction 1 as [n start Hge|n start Hlt Hb|n start cs Hlt Hc _ IH];
    intros [|fuel] chunks Hf; simpl in *; try lia.
  - destruct (Z.ltb_spec start total); [lia|]. by rewrite app_nil_r.
  - destruct (Z.ltb_spec start total); [|lia].
    destruct (Z.leb_spec total (Z.min (start + max_chunk_size) total)); [done|lia].
  - destruct (Z.ltb_spec start total); [|lia].
    destruct (Z.leb_spec total (Z.min (start + max_chunk_size) total)); [lia|].
    rewrite IH by lia. by rewrite <- app_assoc.
Qed.

Lemma emits_det n start cs1 :
  emits n start cs1 → ∀ cs2, emits n start cs2 → cs1 = cs2.
Proof.
  induction 1 as [| |n start cs Hlt Hc _ IH]; inversion 1; subst; try lia; try done.
  f_equal. by apply IH.
Qed.

(** Forward progress: with [chunk_overlap < max_chunk_size] every
    start admits a derivation, of at most [total - start] chunks. *)
Lemma emits_total :
  chunk_overlap < max_chunk_size →
  ∀ (k : nat) n start, total - start <= Z.of_nat k →
    ∃ cs, emits n start cs ∧ (length cs <= k)%nat.
Proof.
  intros Hov k. induction k as [|k IH]; intros n start Hk.
  - exists []. split; [apply emits_exit; lia|done].
  - destruct (Z.lt_ge_cases start total) as [Hlt|Hge].
    + destruct (Z.lt_ge_cases (Z.min (start + max_chunk_size) total) total) as [Hc|Hb].
      * destruct (IH (n + 1) (Z.min (start + max_chunk_size) total - chunk_overlap))
          as (cs & Hcs & Hlen); [lia|].
        eexists; split; [by apply emits_next|]. simpl; lia.
      * eexists; split; [by apply emits_break|]. simpl; lia.
    + exists []. split; [by apply emits_exit|]. simpl; lia.
Qed.

(** Without forward progress the loop never exits once it is below
    [total] with a window that cannot reach it. *)
Lemma emits_stuck n start cs :
  emits n start cs →
  max_chunk_size <= chunk_overlap → start < total →
  start + max_chunk_size < total →
  False.
Proof.
  induction 1 as [| |n start cs Hlt Hc _ IH]; intros Hov Hs Hm; lia.
Qed.

(** The [i]-th chunk emitted is the window starting [i] steps after
    [start], numbered [n + i]. *)
Lemma emits_lookup n start cs :
  emits n start cs →
  ∀ (i : nat) c, cs !! i = Some c →
    ∃ s, s = start + Z.of_nat i * (max_chunk_size - chunk_overlap) ∧
         s < total ∧
         c = chunk_at (n + Z.of_nat i) s (Z.min (s + max_chunk_size) total).
Proof.
  induction 1 as [| |n start cs Hlt Hc _ IH]; intros i c Hi.
  - done.
  - destruct i as [|i]; [|done]. injection Hi as <-.
    exists start. split; [lia|]. split; [done|]. f_equal; lia.
  - destruct i as [|i]; simpl in Hi.
    + injection Hi as <-. exists start. split; [lia|]. split; [done|]. f_equal; lia.
    + destruct (IH i c Hi) as (s & -> & Hs & ->).
      eexists; split; [reflexivity|].
      replace (Z.min (start + max_chunk_size) total) with (start + max_chunk_size) in * by lia.
      split; [lia|]. f_equal; lia.
Qed.

(** Every chunk but the last ends before [total]; with a
    non-negative overlap the last one ends at [total]. *)
Lemma emits_ends n start cs :
  emits n start cs →
  ∀ (i : nat) c, cs !! i = Some c →
    ((S i < length cs)%nat → end_line c < total) ∧
    (0 <= chunk_overlap → S i = length cs → end_line c = total).
Proof.
  induction 1 as [| |n start cs Hlt Hc Hcs IH]; intros i c Hi.
  - done.
  - destruct i as [|i]; [|done]. injection Hi as <-. simpl. split; lia.
  - destruct i as [|i]; simpl in Hi.
    + injection Hi as <-. simpl. split; [lia|].
      intros Hov Hlen. destruct cs; [|done]. inversion Hcs; lia.
    + destruct (IH i c Hi) as [H1 H2]. simpl. split; intros; [apply H1|apply H2]; lia.
Qed.

(** Consecutive chunks: the next window starts [chunk_overlap] lines
    before the end of the previous one. *)
Lemma emits_consecutive n start cs :
  emits n start cs →
  ∀ (i : nat) c c', cs !! i = Some c → cs !! S i = Some c' →
    end_line c - start_line c' + 1 = chunk_overlap.
Proof.
  induction 1 as [| |n start cs Hlt Hc Hcs IH]; intros i c c' Hi Hi'.
  - done.
  - by destruct i.
  - destruct i as [|i]; simpl in Hi, Hi'.
    + injection Hi as <-.
      destruct (emits_lookup _ _ _ Hcs 0%nat c' Hi') as (s & -> & _ & ->).
      simpl. lia.
    + by eapply IH.
Qed.

(** With a non-negative overlap no line after [start] is skipped. *)
Lemma emits_covers n start cs :
  emits n start cs → 0 <= chunk_overlap →
  ∀ line, start < line <= total →
    ∃ c, c ∈ cs ∧ start_line c <= line <= end_line c.
Proof.
  induction 1 as [| |n start cs Hlt Hc _ IH]; intros Hov line Hline.
  - lia.
  - eexists; split; [apply list_elem_of_here|]. simpl. lia.
  - destruct (Z.le_gt_cases line (Z.min (start + max_chunk_size) total)) as [Hin|Hout].
    + eexists; split; [apply list_elem_of_here|]. simpl. lia.
    + destruct (IH Hov line) as (c & Hc' & Hr); [lia|].
      exists c. split; [by apply list_elem_of_further|done].
Qed.

(** A window of at least one line is never empty. *)
Lemma emits_nonempty n start cs :
  emits n start cs → 1 <= max_chunk_size →
  ∀ c, c ∈ cs → start_line c <= end_line c.
Proof.
  intros Hcs Hmax c Hc. apply list_elem_of_lookup in Hc as [i Hi].
  destruct (emits_lookup _ _ _ Hcs i c Hi) as (s & _ & Hs & ->). simpl. lia.
Qed.

Lemma emits_length n start cs :
  emits n start cs → (length cs <= Z.to_nat (total - start))%nat.
Proof.
  induction 1 as [| |n start cs Hlt Hc Hcs IH]; simpl; [lia|lia|].
  destruct (Z.lt_ge_cases chunk_overlap max_chunk_size) as [Hov|Hov]; [lia|].
  exfalso. apply (emits_stuck _ _ _ Hcs); lia.
Qed.

(** The constructors, with the window end and the next loop variables
    named. *)
Lemma emits_stop n start e :
  start < total → e = Z.min (start + max_chunk_size) total → total <= e →
  emits n start [chunk_at n start e].
Proof. intros ? -> ?. by apply emits_break. Qed.

Lemma emits_step n start e n' start' cs :
  start < total → e = Z.min (start + max_chunk_size) total → e < total →
  n' = n + 1 → start' = e - chunk_overlap →
  emits n' start' cs → emits n start (chunk_at n start e :: cs).
Proof. intros ? -> ? -> -> ?. by apply emits_next. Qed.

End Loop.
End Window.

(** ** [chunk_code] *)

Module ChunkCode.
Import Chunking.

Lemma split_lines_nonempty content : Py.split_lines content ≠ [].
Proof.
  destruct content as [|c s]; simpl; [done|].
  destruct (Ascii.eqb c Py.newline); [done|]. by destruct (Py.split_lines s).
Qed.

Lemma total_lines_pos content : 1 <= total_lines content.
Proof.
  unfold total_lines. pose proof (split_lines_nonempty content).
  destruct (Py.split_lines content); [done|]. simpl; lia.
Qed.

Section Params.
Variables (fp content : string) (max_chunk_size chunk_overlap : Z).

Abbreviation lang := (get_language_from_extension fp).
Abbreviation lines := (Py.split_lines content).
Abbreviation total := (total_lines content).
Abbreviation emits :=
  (Chunking.emits fp lang lines total max_chunk_size chunk_overlap).

Lemma chunk_code_fuel_whole fuel :
  total <= max_chunk_size →
  chunk_code_fuel fuel fp content max_chunk_size chunk_overlap
  = Some [whole_file_chunk fp content lang total].
Proof.
  intros H. unfold chunk_code_fuel. fold total.
  by destruct (Z.leb_spec total max_chunk_size); [|lia].
Qed.

Lemma chunk_code_fuel_window fuel cs :
  max_chunk_size < total →
  chunk_code_fuel fuel fp content max_chunk_size chunk_overlap = Some cs →
  ∃ ws, emits 0 0 ws ∧ cs = fill_total_chunks ws.
Proof.
  intros H. unfold chunk_code_fuel. fold total.
  destruct (Z.leb_spec total max_chunk_size); [lia|].
  destruct (window_loop _ _ _ _ _ _ _ _ _ _) as [ws|] eqn:Hloop; [|done].
  intros [= <-]. apply Window.loop_emits in Hloop as (ws' & -> & Hws). eauto.
Qed.

Lemma emits_chunk_code ws :
  max_chunk_size < total → emits 0 0 ws →
  chunk_code fp content max_chunk_size chunk_overlap = Some (fill_total_chunks ws).
Proof.
  intros H Hws. unfold chunk_code, chunk_code_fuel. fold total.
  destruct (Z.leb_spec total max_chunk_size); [lia|].
  rewrite (Window.emits_loop _ _ _ _ _ _ _ _ _ Hws); [done|].
  apply Window.emits_length in Hws. unfold total_lines in *. lia.
Qed.

(** The fuel of [chunk_code] is adequate: whatever the loop returns with
    some fuel, [chunk_code] returns. *)
Lemma chunk_code_adequate fuel cs :
  chunk_code_fuel fuel fp content max_chunk_size chunk_overlap = Some cs →
  chunk_code fp content max_chunk_size chunk_overlap = Some cs.
Proof.
  intros Hf. destruct (Z.le_gt_cases total max_chunk_size) as [Hle|Hgt].
  - unfold chunk_code. rewrite chunk_code_fuel_whole in * by done. done.
  - apply chunk_code_fuel_window in Hf as (ws & Hws & ->); [|lia].
    apply emits_chunk_code; [lia|done].
Qed.

(** Without forward progress and with more lines than a window holds,
    no amount of fuel makes the loop return. *)
Lemma chunk_code_diverges fuel :
  max_chunk_size < total → max_chunk_size <= chunk_overlap →
  chunk_code_fuel fuel fp content max_chunk_size chunk_overlap = None.
Proof.
  intros Hgt Hov.
  destruct (chunk_code_fuel _ _ _ _ _) as [cs|] eqn:Hf; [|done].
  apply chunk_code_fuel_window in Hf as (ws & Hws & _); [|done].
  pose proof (total_lines_pos content).
  exfalso. apply (Window.emits_stuck _ _ _ _ _ _ _ _ _ Hws); lia.
Qed.

Lemma chunk_code_returns :
  chunk_overlap < max_chunk_size →
  ∃ cs, chunk_code fp content max_chunk_size chunk_overlap = Some cs.
Proof.
  intros Hov. destruct (Z.le_gt_cases total max_chunk_size) as [Hle|Hgt].
  - eexists. unfold chunk_code. by apply chunk_code_fuel_whole.
  - destruct (Window.emits_total fp lang lines total _ _ Hov (Z.to_nat total) 0 0)
      as (ws & Hws & _); [lia|].
    eexists. apply emits_chunk_code; [lia|done].
Qed.

Lemma chunk_code_fuel_enough fuel cs :
  chunk_code fp content max_chunk_size chunk_overlap = Some cs →
  (Z.to_nat total < fuel)%nat →
  chunk_code_fuel fuel fp content max_chunk_size chunk_overlap = Some cs.
Proof.
  intros Hc Hfuel. destruct (Z.le_gt_cases total max_chunk_size) as [Hle|Hgt].
  - unfold chunk_code in Hc. rewrite chunk_code_fuel_whole in * by done. done.
  - apply chunk_code_fuel_window in Hc as (ws & Hws & ->); [|lia].
    unfold chunk_code_fuel. fold total.
    destruct (Z.leb_spec total max_chunk_size); [lia|].
    rewrite (Window.emits_loop _ _ _ _ _ _ _ _ _ Hws); [done|].
    apply Window.emits_length in Hws. lia.
Qed.

Lemma fill_lookup ws (i : nat) c :
  fill_total_chunks ws !! i = Some c →
  ∃ w, ws !! i = Some w ∧ c = set_total_chunks (Z.of_nat (length ws)) w.
Proof.
  unfold fill_total_chunks. rewrite list_lookup_fmap.
  destruct (ws !! i) as [w|]; [|done]. intros [= <-]. eauto.
Qed.

Lemma fill_length ws : length (fill_total_chunks ws) = length ws.
Proof. unfold fill_total_chunks. by rewrite length_fmap. Qed.

Lemma fill_elem_of ws c :
  c ∈ fill_total_chunks ws →
  ∃ w, w ∈ ws ∧ c = set_total_chunks (Z.of_nat (length ws)) w.
Proof.
  intros Hc. apply list_elem_of_lookup in Hc as [i Hi].
  apply fill_lookup in Hi as (w & Hw & ->).
  exists w. split; [|done]. apply list_elem_of_lookup. eauto.
Qed.

(** With a non-negative overlap the window loop, once entered from the
    top of a file longer than a window, emits at least two chunks. *)
Lemma emits_two ws :
  max_chunk_size < total → 0 <= chunk_overlap → emits 0 0 ws →
  (1 < length ws)%nat.
Proof.
  intros Hgt Hov Hws. pose proof (total_lines_pos content).
  inversion Hws as [| |n start cs Hlt Hc Hcs]; subst; try lia.
  inversion Hcs; subst; simpl; lia.
Qed.

Lemma sliding_windows_of_emits ws :
  max_chunk_size < total → 0 <= chunk_overlap < max_chunk_size →
  emits 0 0 ws →
  sliding_windows content max_chunk_size chunk_overlap (fill_total_chunks ws).
Proof.
  intros Hgt Hov Hws. pose proof (total_lines_pos content) as Hpos.
  split; [|split; [|split; [|split]]].
  - intros i c Hi. apply fill_lookup in Hi as (w & Hw & ->).
    destruct (Window.emits_lookup _ _ _ _ _ _ _ _ _ Hws i w Hw) as (s & -> & _ & ->).
    unfold is_window; simpl. rewrite !Z.add_0_l. done.
  - pose proof (emits_two ws Hgt (proj1 Hov) Hws) as Hlen.
    destruct (last (fill_total_chunks ws)) as [c|] eqn:Hlast.
    + exists c. split; [done|]. rewrite last_lookup, fill_length in Hlast.
      apply fill_lookup in Hlast as (w & Hw & ->).
      apply (Window.emits_ends _ _ _ _ _ _ _ _ _ Hws) in Hw as [_ Hw]. apply Hw; lia.
    + apply last_None in Hlast. apply (f_equal length) in Hlast.
      rewrite fill_length in Hlast. simpl in Hlast. lia.
  - intros i c Hi Hlen. rewrite fill_length in Hlen.
    apply fill_lookup in Hi as (w & Hw & ->).
    apply (Window.emits_ends _ _ _ _ _ _ _ _ _ Hws) in Hw as [Hw _]. by apply Hw.
  - intros c Hc. apply fill_elem_of in Hc as (w & Hw & ->).
    simpl. apply (Window.emits_nonempty _ _ _ _ _ _ _ _ _ Hws); [lia|done].
  - intros i c c' Hi Hi'.
    apply fill_lookup in Hi as (w & Hw & ->). apply fill_lookup in Hi' as (w' & Hw' & ->).
    apply (Window.emits_consecutive _ _ _ _ _ _ _ _ _ Hws i w w' Hw Hw').
Qed.

End Params.
End ChunkCode.

(** ** The chunker: claims *)

Import Chunking.

(** C3. For every content whose number of lines is at most
    [max_chunk_size], [chunk_code] returns (whatever the fuel, the loop
    is not entered) exactly one chunk, of type ["whole_file"], starting
    at line 1 and ending at the last line; it holds the whole content
    and carries neither [chunk_number] nor [total_chunks].  In
    particular 50 lines with [max_chunk_size = 500] give one chunk
    spanning lines 1 to 50. *)
Theorem C3_whole_file (fp content : string) (max_chunk_size chunk_overlap : Z) :
  total_lines content <= max_chunk_size →
  ∃ c, (∀ fuel, chunk_code_fuel fuel fp content max_chunk_size chunk_overlap = Some [c]) ∧
       chunk_code fp content max_chunk_size chunk_overlap = Some [c] ∧
       chunk_type c = "whole_file" ∧
       start_line c = 1 ∧
       end_line c = total_lines content ∧
       chunk_text c = content ∧
       unnumbered c ∧
       (total_lines content = 50 → max_chunk_size = 500 → line_range c = (1, 50)).
Proof.
  intros Hle. eexists. split; [|split].
  - intros fuel. by apply ChunkCode.chunk_code_fuel_whole.
  - by apply ChunkCode.chunk_code_fuel_whole.
  - simpl. repeat split; try done.
    intros Ht _. unfold line_range; simpl. by rewrite Ht.
Qed.

Lemma C3_whole_file_witness :
  total_lines (blank_lines 49) <= 500 ∧
  ∃ c, chunk_code "src/app.py" (blank_lines 49) 500 100 = Some [c] ∧
       chunk_type c = "whole_file" ∧ line_range c = (1, 50).
Proof.
  split; [vm_compute; discriminate|].
  destruct (C3_whole_file "src/app.py" (blank_lines 49) 500 100)
    as (c & _ & Hc & Hty & _ & _ & _ & _ & Hex); [vm_compute; discriminate|].
  exists c. split; [done|]. split; [done|]. apply Hex; reflexivity.
Defined.

(** C1, as stated, fails for a negative overlap: with three lines, a
    window of two lines and an overlap of -1 the single chunk emitted
    ends at line 2, the loop exits on its condition, and no chunk
    reaches the last line. *)
Lemma C1_counterexample :
  2 < total_lines (Py.join_lines ["a"; "b"; "c"]) ∧ -1 < 2 ∧
  ∃ cs, chunk_code "f.py" (Py.join_lines ["a"; "b"; "c"]) 2 (-1) = Some cs ∧
        line_range <$> cs = [(1, 2)] ∧
        ¬ sliding_windows (Py.join_lines ["a"; "b"; "c"]) 2 (-1) cs.
Proof.
  split; [reflexivity|]. split; [reflexivity|].
  eexists. split; [vm_compute; reflexivity|]. split; [reflexivity|].
  intros (_ & (c & Hlast & Hend) & _).
  vm_compute in Hlast. injection Hlast as <-. vm_compute in Hend. discriminate.
Qed.

(** C1 (amended). For every content with more lines than
    [max_chunk_size] and [0 <= chunk_overlap < max_chunk_size],
    [chunk_code] returns sliding-window chunks: chunk [i] starts at the
    0-based offset [i * (max_chunk_size - chunk_overlap)] and ends at
    [min (offset + max_chunk_size) total]; the last chunk, and only the
    last, ends at the last line; no chunk is empty; consecutive chunks
    satisfy [end_line - start_line' + 1 = chunk_overlap] (every pair,
    the final one included).  For 1200 lines, windows of 500 and an
    overlap of 100 the chunks are lines 1-500, 401-900 and 801-1200. *)
Theorem C1_sliding_window (fp content : string) (max_chunk_size chunk_overlap : Z) :
  max_chunk_size < total_lines content →
  0 <= chunk_overlap < max_chunk_size →
  ∃ cs, chunk_code fp content max_chunk_size chunk_overlap = Some cs ∧
        sliding_windows content max_chunk_size chunk_overlap cs ∧
        (total_lines content = 1200 → max_chunk_size = 500 → chunk_overlap = 100 →
         line_range <$> cs = [(1, 500); (401, 900); (801, 1200)]).
Proof.
  intros Hgt Hov.
  destruct (Window.emits_total fp (get_language_from_extension fp)
              (Py.split_lines content) (total_lines content) max_chunk_size chunk_overlap
              (proj2 Hov) (Z.to_nat (total_lines content)) 0 0) as (ws & Hws & _); [lia|].
  exists (fill_total_chunks ws). split; [by apply ChunkCode.emits_chunk_code|].
  split; [by apply (ChunkCode.sliding_windows_of_emits fp)|].
  intros Ht -> ->. rewrite Ht in Hws.
  assert (Hthree : emits fp (get_language_from_extension fp) (Py.split_lines content)
            1200 500 100 0 0
            [window_chunk fp (get_language_from_extension fp) (Py.split_lines content) 1200 0 0 500;
             window_chunk fp (get_language_from_extension fp) (Py.split_lines content) 1200 1 400 900;
             window_chunk fp (get_language_from_extension fp) (Py.split_lines content) 1200 2 800 1200]).
  { apply (Window.emits_step _ _ _ _ _ _ 0 0 500 1 400); [lia..|].
    apply (Window.emits_step _ _ _ _ _ _ 1 400 900 2 800); [lia..|].
    apply Window.emits_stop; lia. }
  by rewrite (Window.emits_det _ _ _ _ _ _ _ _ _ Hws _ Hthree).
Qed.

Lemma C1_sliding_window_witness :
  ∃ cs, chunk_code "src/big.py" (blank_lines 1199) 500 100 = Some cs ∧
        sliding_windows (blank_lines 1199) 500 100 cs ∧
        line_range <$> cs = [(1, 500); (401, 900); (801, 1200)].
Proof.
  destruct (C1_sliding_window "src/big.py" (blank_lines 1199) 500 100)
    as (cs & Hcs & Hsw & Hex); [vm_compute; reflexivity|lia|].
  exists cs. split; [done|]. split; [done|]. apply Hex; reflexivity.
Defined.

(** C2, as stated, fails for a negative overlap: three lines, windows
    of one line and an overlap of -1 give the chunks 1-1 and 3-3; line
    2 lies in no chunk. *)
Lemma C2_counterexample :
  1 <= 1 ∧
  ∃ cs, chunk_code "f.py" (Py.join_lines ["a"; "b"; "c"]) 1 (-1) = Some cs ∧
        line_range <$> cs = [(1, 1); (3, 3)] ∧
        ¬ covers (total_lines (Py.join_lines ["a"; "b"; "c"])) cs.
Proof.
  split; [lia|].
  eexists. split; [vm_compute; reflexivity|]. split; [reflexivity|].
  intros [Hcov _]. destruct (Hcov 2) as (c & Hc & Hr); [vm_compute; split; discriminate|].
  apply elem_of_cons in Hc as [->|Hc]; [simpl in Hr; lia|].
  apply list_elem_of_singleton in Hc as ->. simpl in Hr; lia.
Qed.

(** C2 (amended). For every content, [max_chunk_size >= 1] and
    [chunk_overlap >= 0], whenever [chunk_code] returns (with any fuel),
    the line ranges of its chunks cover [1..total_lines]: every line
    lies in some chunk and each chunk starts no later than the line
    after the end of its predecessor.  It does return when moreover
    [chunk_overlap < max_chunk_size]. *)
Theorem C2_coverage (fp content : string) (max_chunk_size chunk_overlap : Z) :
  1 <= max_chunk_size → 0 <= chunk_overlap →
  (∀ fuel cs,
     chunk_code_fuel fuel fp content max_chunk_size chunk_overlap = Some cs →
     covers (total_lines content) cs) ∧
  (chunk_overlap < max_chunk_size →
   ∃ cs, chunk_code fp content max_chunk_size chunk_overlap = Some cs).
Proof.
  intros Hmax Hov. split; [|apply ChunkCode.chunk_code_returns].
  intros fuel cs Hcs.
  destruct (Z.le_gt_cases (total_lines content) max_chunk_size) as [Hle|Hgt].
  - rewrite ChunkCode.chunk_code_fuel_whole in Hcs by done. injection Hcs as <-.
    split.
    + intros line Hline. eexists. split; [apply list_elem_of_here|]. simpl. lia.
    + intros [|i] c c' Hi Hi'; done.
  - apply ChunkCode.chunk_code_fuel_window in Hcs as (ws & Hws & ->); [|lia].
    split.
    + intros line Hline.
      destruct (Window.emits_covers _ _ _ _ _ _ _ _ _ Hws Hov line) as (w & Hw & Hr); [lia|].
      exists (set_total_chunks (Z.of_nat (length ws)) w). split; [|done].
      unfold fill_total_chunks. by apply list_elem_of_fmap_2.
    + intros i c c' Hi Hi'.
      apply ChunkCode.fill_lookup in Hi as (w & Hw & ->).
      apply ChunkCode.fill_lookup in Hi' as (w' & Hw' & ->).
      pose proof (Window.emits_consecutive _ _ _ _ _ _ _ _ _ Hws i w w' Hw Hw').
      simpl. lia.
Qed.

Lemma C2_coverage_witness :
  ∃ cs, chunk_code "f.py" (Py.join_lines ["a"; "b"; "c"; "d"; "e"]) 3 1 = Some cs ∧
        line_range <$> cs = [(1, 3); (3, 5)] ∧
        covers 5 cs.
Proof.
  destruct (C2_coverage "f.py" (Py.join_lines ["a"; "b"; "c"; "d"; "e"]) 3 1)
    as [Hcov Hret]; [lia|lia|].
  destruct Hret as (cs & Hcs); [lia|].
  exists cs. split; [done|]. split.
  - vm_compute in Hcs. by injection Hcs as <-.
  - apply (Hcov 6%nat cs), ChunkCode.chunk_code_fuel_enough; [done|]. vm_compute; lia.
Defined.

(** C5, as stated, fails for a negative overlap: the sliding-window
    branch can then end after a single chunk, and that chunk of a
    one-chunk file carries [chunk_number] and [total_chunks]. *)
Lemma C5_counterexample :
  ∃ c, chunk_code "f.py" (Py.join_lines ["a"; "b"; "c"]) 2 (-1) = Some [c] ∧
       metadata c !! "chunk_number" = Some (Py.Int 0) ∧
       metadata c !! "total_chunks" = Some (Py.Int 1).
Proof. eexists. split; [vm_compute; reflexivity|]. split; reflexivity. Qed.

(** C5 (amended). For every file that [chunk_code] chunks: if there
    is more than one chunk, every chunk carries [total_chunks] equal to
    the number of chunks and the [chunk_number] values are
    [0, 1, ..., total_chunks - 1] in order; for [chunk_overlap >= 0] a
    chunk carrying [chunk_number] or [total_chunks] belongs to a file
    with more than one chunk; a [whole_file] chunk, the single chunk of
    a file that fits in one window, carries neither. *)
Theorem C5_metadata (fp content : string) (max_chunk_size chunk_overlap : Z)
    (fuel : nat) (cs : list Chunk) :
  chunk_code_fuel fuel fp content max_chunk_size chunk_overlap = Some cs →
  ((1 < length cs)%nat → numbered cs) ∧
  (0 <= chunk_overlap →
   ∀ c, c ∈ cs →
     is_Some (metadata c !! "chunk_number") ∨ is_Some (metadata c !! "total_chunks") →
     (1 < length cs)%nat) ∧
  (total_lines content <= max_chunk_size →
   ∃ c, cs = [c] ∧ chunk_type c = "whole_file" ∧ unnumbered c).
Proof.
  intros Hcs.
  destruct (Z.le_gt_cases (total_lines content) max_chunk_size) as [Hle|Hgt].
  - rewrite ChunkCode.chunk_code_fuel_whole in Hcs by done. injection Hcs as <-.
    split; [simpl; lia|]. split.
    + intros _ c Hc%list_elem_of_singleton [[v Hv]|[v Hv]]; subst; done.
    + intros _. eexists. split; [done|]. by repeat split.
  - apply ChunkCode.chunk_code_fuel_window in Hcs as (ws & Hws & ->); [|lia].
    rewrite ChunkCode.fill_length. split; [|split; [|lia]].
    + intros _ i c Hi. rewrite ChunkCode.fill_length.
      apply ChunkCode.fill_lookup in Hi as (w & Hw & ->).
      destruct (Window.emits_lookup _ _ _ _ _ _ _ _ _ Hws i w Hw) as (s & _ & _ & ->).
      split; [done|]. simpl. by rewrite Z.add_0_l.
    + intros Hov c _ _. by apply (ChunkCode.emits_two fp content max_chunk_size chunk_overlap).
Qed.

Lemma C5_metadata_witness :
  ∃ cs, chunk_code "f.py" (Py.join_lines ["a"; "b"; "c"; "d"; "e"]) 3 1 = Some cs ∧
        length cs = 2%nat ∧ numbered cs.
Proof.
  eexists. split; [vm_compute; reflexivity|]. split; [reflexivity|].
  refine (proj1 (C5_metadata "f.py" (Py.join_lines ["a"; "b"; "c"; "d"; "e"]) 3 1 6 _ _) _).
  - vm_compute; reflexivity.
  - simpl; lia.
Defined.

(** C6. Under [chunk_overlap < max_chunk_size] (and
    [max_chunk_size >= 1]) [chunk_code] terminates for every content:
    it returns a list [cs], the same for every fuel above the number of
    lines; the loop makes at most one iteration per line; and each
    iteration strictly increases the window start, so the start lines
    of the chunks emitted strictly increase. *)
Theorem C6_termination (fp content : string) (max_chunk_size chunk_overlap : Z) :
  1 <= max_chunk_size → chunk_overlap < max_chunk_size →
  ∃ cs, chunk_code fp content max_chunk_size chunk_overlap = Some cs ∧
        (∀ fuel, (Z.to_nat (total_lines content) < fuel)%nat →
           chunk_code_fuel fuel fp content max_chunk_size chunk_overlap = Some cs) ∧
        (length cs <= Z.to_nat (total_lines content))%nat ∧
        (∀ (i : nat) c c', cs !! i = Some c → cs !! S i = Some c' →
           start_line c < start_line c').
Proof.
  intros Hmax Hov.
  destruct (ChunkCode.chunk_code_returns fp content _ _ Hov) as (cs & Hcs).
  exists cs. split; [done|]. split; [intros; by apply ChunkCode.chunk_code_fuel_enough|].
  pose proof (ChunkCode.total_lines_pos content) as Hpos.
  destruct (Z.le_gt_cases (total_lines content) max_chunk_size) as [Hle|Hgt].
  - unfold chunk_code in Hcs.
    rewrite ChunkCode.chunk_code_fuel_whole in Hcs by done. injection Hcs as <-.
    split; [simpl; lia|]. by intros [|i] c c' Hi Hi'.
  - apply ChunkCode.chunk_code_fuel_window in Hcs as (ws & Hws & ->); [|lia].
    rewrite ChunkCode.fill_length. split.
    + apply Window.emits_length in Hws. lia.
    + intros i c c' Hi Hi'.
      apply ChunkCode.fill_lookup in Hi as (w & Hw & ->).
      apply ChunkCode.fill_lookup in Hi' as (w' & Hw' & ->).
      destruct (Window.emits_lookup _ _ _ _ _ _ _ _ _ Hws i w Hw) as (s & -> & _ & ->).
      destruct (Window.emits_lookup _ _ _ _ _ _ _ _ _ Hws (S i) w' Hw') as (s' & -> & _ & ->).
      simpl. nia.
Qed.

Lemma C6_termination_witness :
  ∃ cs, chunk_code "f.py" (blank_lines 9) 4 3 = Some cs ∧
        line_range <$> cs = [(1, 4); (2, 5); (3, 6); (4, 7); (5, 8); (6, 9); (7, 10)].
Proof.
  destruct (C6_termination "f.py" (blank_lines 9) 4 3) as (cs & Hcs & _); [lia|lia|].
  exists cs. split; [done|]. vm_compute in Hcs. by injection Hcs as <-.
Defined.

(** ** Calls that only append to the table *)

Module Frame.
Import Flow Spec.

Section Framed.
Context {R : Type}.

Lemma framed_ret {A} (a : A) : framed (mret a : M (list R) A).
Proof. intros db. cbn. by rewrite app_nil_r. Qed.

Lemma framed_raise {A} e : framed (raise e : M (list R) A).
Proof. intros db. cbn. by rewrite app_nil_r. Qed.

Lemma framed_diverge {A} : framed (diverge : M (list R) A).
Proof. intros db. cbn. by rewrite app_nil_r. Qed.

Lemma framed_bind {A B} (m : M (list R) A) (k : A → M (list R) B) :
  framed m → (∀ a, framed (k a)) → framed (m ≫= k).
Proof.
  intros Hm Hk db. unfold mbind, M_bind, bind. rewrite (Hm db).
  destruct (m []) as [[a|e|] new]; simpl; [|done..].
  rewrite (Hk a (db ++ new)%list), (Hk a new). simpl. by rewrite app_assoc.
Qed.

Lemma framed_try_except {A} (m : M (list R) A) (h : exn → M (list R) A) :
  framed m → (∀ e, framed (h e)) → framed (try_except m h).
Proof.
  intros Hm Hh db. unfold try_except. rewrite (Hm db).
  destruct (m []) as [[a|e|] new]; simpl; [done| |done].
  rewrite (Hh e (db ++ new)%list), (Hh e new). simpl. by rewrite app_assoc.
Qed.

End Framed.
End Frame.

(** ** Indexing a repository *)

Module Index.
Import Flow Spec Frame.

Section Service.
Context {Embedding : Type}.
Variable encode : list string → option (list Embedding).
Variable storable : Row.t Embedding → bool.
Variables MAX_CHUNK_SIZE CHUNK_OVERLAP : Z.
Variable fs : gmap string Fs.node.

Abbreviation Db := (list (Row.t Embedding)).
Abbreviation _index_file := (Flow._index_file encode storable MAX_CHUNK_SIZE CHUNK_OVERLAP fs).
Abbreviation index_files := (Flow.index_files encode storable MAX_CHUNK_SIZE CHUNK_OVERLAP fs).
Abbreviation index_repository := (Flow.index_repository encode storable MAX_CHUNK_SIZE CHUNK_OVERLAP fs).
Abbreviation _collect_files := (Flow._collect_files fs).
Abbreviation file_outcome := (Spec.file_outcome encode storable MAX_CHUNK_SIZE CHUNK_OVERLAP fs).
Abbreviation file_rows := (Spec.file_rows encode storable MAX_CHUNK_SIZE CHUNK_OVERLAP fs).
Abbreviation gain := (Spec.gain encode storable MAX_CHUNK_SIZE CHUNK_OVERLAP fs).
Abbreviation files_indexed_of :=
  (Spec.files_indexed_of encode storable MAX_CHUNK_SIZE CHUNK_OVERLAP fs).
Abbreviation chunks_created_of :=
  (Spec.chunks_created_of encode storable MAX_CHUNK_SIZE CHUNK_OVERLAP fs).

Lemma framed_execute_insert r : framed (execute_insert storable r).
Proof. intros db. unfold execute_insert. destruct (storable r); simpl; [done|by rewrite app_nil_r]. Qed.

Lemma framed_insert_chunks repo_path rel mtime pairs :
  framed (insert_chunks storable repo_path rel mtime pairs).
Proof.
  induction pairs as [|[chunk embedding] pairs IH]; simpl; [apply framed_ret|].
  apply framed_bind; [apply framed_execute_insert|done].
Qed.

Lemma framed_index_file repo_path file_path : framed (_index_file repo_path file_path).
Proof.
  unfold Flow._index_file.
  destruct (Fs.lookup_file fs repo_path file_path) as [[[content|] mtime]|];
    [|apply framed_ret..].
  destruct (Chunking.smart_chunk _ _ _ _ _) as [[|c cs]|];
    [apply framed_ret| |apply framed_diverge].
  destruct (encode _); [|apply framed_raise].
  apply framed_bind; [apply framed_insert_chunks|intros; apply framed_ret].
Qed.

Lemma framed_index_files repo_path files : ∀ i c,
  framed (index_files repo_path files i c).
Proof.
  induction files as [|f files IH]; intros i c; simpl; [apply framed_ret|].
  apply framed_bind; [|intros; apply IH].
  apply framed_try_except; [|intros; apply framed_ret].
  apply framed_bind; [apply framed_index_file|intros; apply framed_ret].
Qed.

Lemma insert_chunks_ends repo_path rel mtime pairs : ∀ db,
  fst (insert_chunks storable repo_path rel mtime pairs db) ≠ Diverge.
Proof.
  induction pairs as [|[chunk embedding] pairs IH]; intros db; simpl; [done|].
  unfold mbind, M_bind, bind, execute_insert.
  destruct (storable _); [apply IH|done].
Qed.

(** The chunker returns under forward progress, so no file makes the
    call diverge. *)
Lemma file_outcome_returns repo_path file_path :
  CHUNK_OVERLAP < MAX_CHUNK_SIZE →
  file_outcome repo_path file_path ≠ Diverge.
Proof.
  intros Hov. unfold Spec.file_outcome, Flow._index_file.
  destruct (Fs.lookup_file fs repo_path file_path) as [[[content|] mtime]|]; [|done..].
  unfold Chunking.smart_chunk.
  destruct (ChunkCode.chunk_code_returns (Fs.relpath file_path repo_path) content _ _ Hov)
    as [cs ->].
  destruct cs as [|c cs]; [done|].
  destruct (encode _); [|done].
  unfold mbind, M_bind, bind.
  pose proof (insert_chunks_ends repo_path (Fs.relpath file_path repo_path) mtime
                (zip (c :: cs) l) []) as Hins.
  by destruct (insert_chunks _ _ _ _ _ _) as [[?|?|] ?].
Qed.

Lemma files_indexed_of_cons repo_path f files :
  files_indexed_of repo_path (f :: files)
  = (if 0 <? gain repo_path f then 1 else 0) + files_indexed_of repo_path files.
Proof.
  unfold Spec.files_indexed_of. simpl. destruct (0 <? gain repo_path f); simpl; lia.
Qed.

Lemma chunks_created_of_cons repo_path f files :
  chunks_created_of repo_path (f :: files)
  = gain repo_path f + chunks_created_of repo_path files.
Proof. done. Qed.

Lemma index_files_counts repo_path files :
  (∀ f, f ∈ files → file_outcome repo_path f ≠ Diverge) →
  ∀ i c db,
    index_files repo_path files i c db
    = (Return (i + files_indexed_of repo_path files, c + chunks_created_of repo_path files),
       (db ++ flat_map (file_rows repo_path) files)%list).
Proof.
  induction files as [|f files IH]; intros Hret i c db.
  - cbn. by rewrite !Z.add_0_r, app_nil_r.
  - assert (Hf : file_outcome repo_path f ≠ Diverge) by (apply Hret, list_elem_of_here).
    assert (Hfiles : ∀ f', f' ∈ files → file_outcome repo_path f' ≠ Diverge)
      by (intros; by apply Hret, list_elem_of_further).
    specialize (IH Hfiles).
    rewrite files_indexed_of_cons, chunks_created_of_cons. unfold Spec.gain at 1 2.
    simpl. unfold mbind, M_bind, bind, try_except.
    rewrite (framed_index_file repo_path f db).
    fold (file_outcome repo_path f) (file_rows repo_path f).
    destruct (file_outcome repo_path f) as [n|e|]; [| |done]; cbn.
    + destruct (0 <? n) eqn:Hn; cbn; rewrite ?Hn, IH, <- app_assoc; simpl;
        do 2 f_equal; f_equal; lia.
    + rewrite IH, <- app_assoc. do 2 f_equal.
Qed.

Lemma index_repository_missing repo_path force db :
  fs !! repo_path = None →
  index_repository repo_path force db
  = (Raise (ValueError ("Repository path does not exist: " +:+ repo_path)), db).
Proof.
  intros Hnone. unfold Flow.index_repository, Fs.exists_. rewrite Hnone.
  rewrite bool_decide_eq_false_2; [done|]. by intros [? ?].
Qed.

Lemma index_repository_returns repo_path force db :
  is_Some (fs !! repo_path) →
  (∀ f, f ∈ _collect_files repo_path → file_outcome repo_path f ≠ Diverge) →
  index_repository repo_path force db
  = (Return {| Stats.repo_path := repo_path;
               Stats.files_indexed := files_indexed_of repo_path (_collect_files repo_path);
               Stats.chunks_created := chunks_created_of repo_path (_collect_files repo_path);
               Stats.files_found := Z.of_nat (length (_collect_files repo_path)) |},
     ((if force then others repo_path db else db)
        ++ flat_map (file_rows repo_path) (_collect_files repo_path))%list).
Proof.
  intros Hsome Hret. unfold Flow.index_repository, Fs.exists_.
  rewrite bool_decide_eq_true_2 by done. simpl.
  unfold mbind, M_bind, bind.
  assert (Hcount := index_files_counts repo_path (_collect_files repo_path) Hret 0 0).
  destruct force; cbn; rewrite Hcount; cbn; by rewrite !Z.add_0_l.
Qed.

Lemma index_repository_existing repo_path force db :
  is_Some (fs !! repo_path) →
  CHUNK_OVERLAP < MAX_CHUNK_SIZE →
  index_repository repo_path force db
  = (Return {| Stats.repo_path := repo_path;
               Stats.files_indexed := files_indexed_of repo_path (_collect_files repo_path);
               Stats.chunks_created := chunks_created_of repo_path (_collect_files repo_path);
               Stats.files_found := Z.of_nat (length (_collect_files repo_path)) |},
     ((if force then others repo_path db else db)
        ++ flat_map (file_rows repo_path) (_collect_files repo_path))%list).
Proof.
  intros Hsome Hov. apply index_repository_returns; [done|].
  intros f _. by apply file_outcome_returns.
Qed.

(** The loop over the files never raises: an exception of
    [_index_file] is caught. *)
Lemma index_files_ends repo_path files : ∀ i c db e,
  fst (index_files repo_path files i c db) ≠ Raise e.
Proof.
  induction files as [|f files IH]; intros i c db e; [done|]. simpl.
  unfold mbind, M_bind, bind, try_except.
  destruct (Flow._index_file _ _ _ _ _ _ _ _) as [[n|e'|] db1]; cbn; [apply IH..|discriminate].
Qed.

Lemma index_repository_ends repo_path force db e :
  is_Some (fs !! repo_path) →
  fst (index_repository repo_path force db) ≠ Raise e.
Proof.
  intros Hsome. unfold Flow.index_repository, Fs.exists_.
  rewrite bool_decide_eq_true_2 by done. simpl.
  unfold mbind, M_bind, bind.
  destruct force; cbn.
  - pose proof (index_files_ends repo_path (_collect_files repo_path) 0 0
                  (others repo_path db) e) as Hends.
    fold (others repo_path db).
    destruct (Flow.index_files _ _ _ _ _ _ _ _ _ _) as [[counts|e'|] db1]; cbn in *;
      first [discriminate|intros [= ->]; by apply Hends].
  - pose proof (index_files_ends repo_path (_collect_files repo_path) 0 0 db e) as Hends.
    destruct (Flow.index_files _ _ _ _ _ _ _ _ _ _) as [[counts|e'|] db1]; cbn in *;
      first [discriminate|intros [= ->]; by apply Hends].
Qed.

(** A forced index of an existing path ends as a scan into the empty
    table does, its rows appended to those of the other repositories. *)
Lemma index_repository_forced repo_path db :
  is_Some (fs !! repo_path) →
  index_repository repo_path true db
  = (fst (index_repository repo_path false []),
     (others repo_path db ++ snd (index_repository repo_path false []))%list).
Proof.
  intros Hsome. unfold Flow.index_repository, Fs.exists_.
  rewrite bool_decide_eq_true_2 by done. simpl.
  set (k := fun counts : Z * Z => mret _).
  assert (Hfr : framed (index_files repo_path (_collect_files repo_path) 0 0 ≫= k)).
  { apply framed_bind; [apply framed_index_files|intros; apply framed_ret]. }
  set (m := index_files repo_path (_collect_files repo_path) 0 0 ≫= k) in *.
  change (m (others repo_path db) = ((m []).1, (others repo_path db ++ (m []).2)%list)).
  apply Hfr.
Qed.

Lemma insert_chunks_accepted repo_path rel mtime pairs :
  (∀ pair, pair ∈ pairs →
     storable (chunk_row repo_path rel mtime (fst pair) (snd pair)) = true) →
  ∀ db, insert_chunks storable repo_path rel mtime pairs db
        = (Return (),
           (db ++ ((fun pair => chunk_row repo_path rel mtime (fst pair) (snd pair)) <$> pairs))%list).
Proof.
  induction pairs as [|[c e] pairs IH]; intros Hok db; simpl.
  - by rewrite app_nil_r.
  - unfold mbind, M_bind, bind, execute_insert.
    pose proof (Hok (c, e) (list_elem_of_here _ _)) as Hce. simpl in Hce. rewrite Hce.
    rewrite IH by (intros; by apply Hok, list_elem_of_further).
    by rewrite <- app_assoc.
Qed.

Lemma insert_chunks_rejected repo_path rel mtime pairs chunk embedding :
  (chunk, embedding) ∈ pairs →
  storable (chunk_row repo_path rel mtime chunk embedding) = false →
  ∀ db, fst (insert_chunks storable repo_path rel mtime pairs db) = Raise DatabaseError.
Proof.
  intros Hin Hrej. induction pairs as [|[c e] pairs IH]; intros db.
  - by apply elem_of_nil in Hin.
  - simpl. unfold mbind, M_bind, bind, execute_insert.
    destruct (storable (chunk_row repo_path rel mtime c e)) eqn:Hst; [|done].
    apply elem_of_cons in Hin as [[= <- <-]|Hin]; [congruence|by apply IH].
Qed.

End Service.
End Index.

(** ** Indexing and re-indexing: claims *)

(** C7. For every repository path that does not exist,
    [index_repository] raises the [ValueError] "Repository path does
    not exist" (the specification's PathNotFound) and leaves the table
    as it was: nothing is inserted and nothing deleted, with
    [force = false] and with [force = true] alike, since the check comes
    before the forced delete. *)
Theorem C7_missing_path {Embedding : Type}
    (encode : list string → option (list Embedding))
    (storable : Row.t Embedding → bool) (MAX_CHUNK_SIZE CHUNK_OVERLAP : Z)
    (fs : gmap string Fs.node) (repo_path : string) (force : bool)
    (db : list (Row.t Embedding)) :
  fs !! repo_path = None →
  Flow.index_repository encode storable MAX_CHUNK_SIZE CHUNK_OVERLAP fs repo_path force db
  = (Flow.Raise (Flow.ValueError ("Repository path does not exist: " +:+ repo_path)), db).
Proof. apply Index.index_repository_missing. Qed.

Lemma C7_missing_path_witness :
  Demo.fs !! "/missing/path" = None ∧
  Flow.index_repository Demo.encode Demo.storable 500 100 Demo.fs "/missing/path" false Demo.db
  = (Flow.Raise (Flow.ValueError "Repository path does not exist: /missing/path"), Demo.db) ∧
  Flow.index_repository Demo.encode Demo.storable 500 100 Demo.fs "/missing/path" true Demo.db
  = (Flow.Raise (Flow.ValueError "Repository path does not exist: /missing/path"), Demo.db).
Proof.
  split; [reflexivity|]. split.
  - apply (C7_missing_path Demo.encode Demo.storable 500 100 Demo.fs "/missing/path" false).
    reflexivity.
  - apply (C7_missing_path Demo.encode Demo.storable 500 100 Demo.fs "/missing/path" true).
    reflexivity.
Defined.

(** C8. A call of [index_repository] on an existing path returns,
    whatever happens to single files (the chunker returning on each of
    them, as it does when [CHUNK_OVERLAP < MAX_CHUNK_SIZE]): the counts
    it reports sum what each candidate file adds, and a file that
    cannot be read or decoded, a file whose embedding raises and a file
    with a chunk the data base refuses each add nothing to
    [files_indexed] and [chunks_created] while the loop goes on with
    the files after it; a file that is read, chunked, embedded and
    stored adds one file and its chunks.  The call raises only when
    the path does not exist, and then leaves the table as it was. *)
Theorem C8_file_failures {Embedding : Type}
    (encode : list string → option (list Embedding))
    (storable : Row.t Embedding → bool) (MAX_CHUNK_SIZE CHUNK_OVERLAP : Z)
    (fs : gmap string Fs.node) (repo_path : string) (force : bool)
    (db : list (Row.t Embedding)) :
  let index_repository :=
    Flow.index_repository encode storable MAX_CHUNK_SIZE CHUNK_OVERLAP fs in
  let file_outcome :=
    Spec.file_outcome encode storable MAX_CHUNK_SIZE CHUNK_OVERLAP fs repo_path in
  let file_rows :=
    Spec.file_rows encode storable MAX_CHUNK_SIZE CHUNK_OVERLAP fs repo_path in
  let gain := Spec.gain encode storable MAX_CHUNK_SIZE CHUNK_OVERLAP fs repo_path in
  let files := Flow._collect_files fs repo_path in
  (CHUNK_OVERLAP < MAX_CHUNK_SIZE → ∀ f, file_outcome f ≠ Flow.Diverge) ∧
  (is_Some (fs !! repo_path) →
   (∀ f, f ∈ files → file_outcome f ≠ Flow.Diverge) →
   ∃ db', index_repository repo_path force db
          = (Flow.Return
               {| Stats.repo_path := repo_path;
                  Stats.files_indexed :=
                    Z.of_nat (length (List.filter (fun f => 0 <? gain f) files));
                  Stats.chunks_created := fold_right Z.add 0 (gain <$> files);
                  Stats.files_found := Z.of_nat (length files) |}, db')) ∧
  (∀ e db', index_repository repo_path force db = (Flow.Raise e, db') →
            fs !! repo_path = None ∧ db' = db) ∧
  (∀ f, Fs.lookup_file fs repo_path f = None ∨
        (∃ mtime, Fs.lookup_file fs repo_path f = Some (None, mtime)) →
        file_outcome f = Flow.Return 0 ∧ file_rows f = [] ∧ gain f = 0) ∧
  (∀ f content mtime c cs,
     Fs.lookup_file fs repo_path f = Some (Some content, mtime) →
     smart_chunk (Fs.relpath f repo_path) content MAX_CHUNK_SIZE CHUNK_OVERLAP false
       = Some (c :: cs) →
     encode (chunk_text <$> c :: cs) = None →
     file_outcome f = Flow.Raise Flow.ModelError ∧ file_rows f = [] ∧ gain f = 0) ∧
  (∀ f content mtime c cs embeddings chunk embedding,
     Fs.lookup_file fs repo_path f = Some (Some content, mtime) →
     smart_chunk (Fs.relpath f repo_path) content MAX_CHUNK_SIZE CHUNK_OVERLAP false
       = Some (c :: cs) →
     encode (chunk_text <$> c :: cs) = Some embeddings →
     (chunk, embedding) ∈ zip (c :: cs) embeddings →
     storable (Flow.chunk_row repo_path (Fs.relpath f repo_path) mtime chunk embedding)
       = false →
     file_outcome f = Flow.Raise Flow.DatabaseError ∧ gain f = 0) ∧
  (∀ f e, file_outcome f = Flow.Raise e → gain f = 0) ∧
  (∀ f content mtime c cs embeddings,
     Fs.lookup_file fs repo_path f = Some (Some content, mtime) →
     smart_chunk (Fs.relpath f repo_path) content MAX_CHUNK_SIZE CHUNK_OVERLAP false
       = Some (c :: cs) →
     encode (chunk_text <$> c :: cs) = Some embeddings →
     (∀ pair, pair ∈ zip (c :: cs) embeddings →
        storable (Flow.chunk_row repo_path (Fs.relpath f repo_path) mtime
                    (fst pair) (snd pair)) = true) →
     file_outcome f = Flow.Return (Z.of_nat (length (c :: cs))) ∧
     gain f = Z.of_nat (length (c :: cs))).
Proof.
  intros index_repository file_outcome file_rows gain files.
  split; [|split; [|split; [|split; [|split; [|split; [|split]]]]]].
  - intros Hov f. by apply Index.file_outcome_returns.
  - intros Hsome Hret. eexists. by apply Index.index_repository_returns.
  - intros e db' Hraise. destruct (fs !! repo_path) as [n|] eqn:Hfs.
    + exfalso. unfold index_repository in Hraise.
      pose proof (Index.index_repository_ends encode storable MAX_CHUNK_SIZE CHUNK_OVERLAP
                    fs repo_path force db) as Hends.
      rewrite Hraise in Hends. apply (Hends e); [by rewrite Hfs|done].
    + unfold index_repository in Hraise.
      rewrite Index.index_repository_missing in Hraise by done.
      by injection Hraise as _ <-.
  - intros f Hread.
    unfold gain, Spec.gain, file_outcome, file_rows, Spec.file_outcome,
      Spec.file_rows, Flow._index_file.
    by destruct Hread as [->|[mtime ->]].
  - intros f content mtime c cs Hfile Hchunks Henc.
    unfold gain, Spec.gain, file_outcome, file_rows, Spec.file_outcome,
      Spec.file_rows, Flow._index_file.
    by rewrite Hfile, Hchunks, Henc.
  - intros f content mtime c cs embeddings chunk embedding Hfile Hchunks Henc Hin Hrej.
    assert (Hout : file_outcome f = Flow.Raise Flow.DatabaseError).
    { unfold file_outcome, Spec.file_outcome, Flow._index_file.
      rewrite Hfile, Hchunks, Henc. unfold mbind, Flow.M_bind, Flow.bind.
      pose proof (Index.insert_chunks_rejected storable repo_path _ mtime _ _ _ Hin Hrej [])
        as Hins.
      destruct (Flow.insert_chunks _ _ _ _ _ _) as [o db']. simpl in Hins. by subst o. }
    split; [done|]. unfold gain, Spec.gain. fold file_outcome. by rewrite Hout.
  - intros f e Hout. unfold gain, Spec.gain. fold file_outcome. by rewrite Hout.
  - intros f content mtime c cs embeddings Hfile Hchunks Henc Hok.
    assert (Hout : file_outcome f = Flow.Return (Z.of_nat (length (c :: cs)))).
    { unfold file_outcome, Spec.file_outcome, Flow._index_file.
      rewrite Hfile, Hchunks, Henc. unfold mbind, Flow.M_bind, Flow.bind.
      by rewrite Index.insert_chunks_accepted. }
    split; [done|]. unfold gain, Spec.gain. fold file_outcome. rewrite Hout.
    destruct (Z.ltb_spec 0 (Z.of_nat (length (c :: cs)))); [done|]. simpl in *; lia.
Qed.

Lemma C8_file_failures_witness :
  ∃ db',
    Flow.index_repository Demo.encode Demo.storable 500 100 Demo.fs "/repo" false Demo.db
    = (Flow.Return {| Stats.repo_path := "/repo";
                      Stats.files_indexed := 3;
                      Stats.chunks_created := 3;
                      Stats.files_found := 6 |}, db') ∧
    Spec.file_outcome Demo.encode Demo.storable 500 100 Demo.fs "/repo" "/repo/binary.py"
    = Flow.Return 0 ∧
    Spec.file_outcome Demo.encode Demo.storable 500 100 Demo.fs "/repo" "/repo/model.py"
    = Flow.Raise Flow.ModelError ∧
    Spec.file_outcome Demo.encode Demo.storable 500 100 Demo.fs "/repo" "/repo/store.py"
    = Flow.Raise Flow.DatabaseError.
Proof.
  destruct (C8_file_failures Demo.encode Demo.storable 500 100 Demo.fs "/repo" false Demo.db)
    as (Hends & Hret & _ & Hread & _).
  destruct Hret as [db' Hdb']; [by eexists|intros f _; apply Hends; lia|].
  exists db'. split; [exact Hdb'|]. split; [|split; reflexivity].
  apply Hread. right. by exists 11%Q.
Defined.

(** C9. For every (non-empty) repository path, the handler of
    [/reindex] on an initialised service does what
    [index_repository repo_path true] does and reports its counts; this
    is the specification's forced full index: on an existing path the
    prior rows of the repository are deleted and the rows of a scan
    into an empty table are appended, and nothing stored before (no
    modification time) decides which files are read. *)
Theorem C9_reindex_is_forced_index {Embedding : Type}
    (encode : list string → option (list Embedding))
    (storable : Row.t Embedding → bool) (MAX_CHUNK_SIZE CHUNK_OVERLAP : Z)
    (fs : gmap string Fs.node) (repo_path : string) (duration : Q)
    (db : list (Row.t Embedding)) :
  repo_path ≠ "" →
  App.reindex encode storable MAX_CHUNK_SIZE CHUNK_OVERLAP fs true (Some repo_path) duration db
  = match Flow.index_repository encode storable MAX_CHUNK_SIZE CHUNK_OVERLAP fs
            repo_path true db with
    | (Flow.Return stats, db') =>
        (Flow.Return (App.ReindexOk (Stats.files_indexed stats)
                        (Stats.chunks_created stats) duration), db')
    | (Flow.Raise e, db') => (Flow.Return (App.Failure 500 (App.message e)), db')
    | (Flow.Diverge, db') => (Flow.Diverge, db')
    end ∧
  App.reindex encode storable MAX_CHUNK_SIZE CHUNK_OVERLAP fs true (Some repo_path) duration db
  = App.forced_full_index encode storable MAX_CHUNK_SIZE CHUNK_OVERLAP fs repo_path duration db.
Proof.
  intros Hne.
  assert (Hcode :
    App.reindex encode storable MAX_CHUNK_SIZE CHUNK_OVERLAP fs true (Some repo_path) duration db
    = match Flow.index_repository encode storable MAX_CHUNK_SIZE CHUNK_OVERLAP fs
              repo_path true db with
      | (Flow.Return stats, db') =>
          (Flow.Return (App.ReindexOk (Stats.files_indexed stats)
                          (Stats.chunks_created stats) duration), db')
      | (Flow.Raise e, db') => (Flow.Return (App.Failure 500 (App.message e)), db')
      | (Flow.Diverge, db') => (Flow.Diverge, db')
      end).
  { unfold App.reindex. destruct repo_path as [|a repo_path]; [done|]. simpl.
    unfold Flow.try_except, mbind, Flow.M_bind, Flow.bind.
    by destruct (Flow.index_repository _ _ _ _ _ _ _ _) as [[stats|e|] db']. }
  split; [exact Hcode|]. rewrite Hcode. unfold App.forced_full_index, Fs.exists_.
  destruct (fs !! repo_path) as [n|] eqn:Hfs.
  - rewrite bool_decide_eq_true_2 by eauto. simpl.
    rewrite Index.index_repository_forced by (rewrite Hfs; eauto).
    by destruct (Flow.index_repository _ _ _ _ _ _ false []) as [[stats|e|] fresh].
  - rewrite bool_decide_eq_false_2 by (by intros [? ?]). simpl.
    by rewrite Index.index_repository_missing.
Qed.

Lemma C9_reindex_is_forced_index_witness :
  App.reindex Demo.encode Demo.storable 500 100 Demo.fs true (Some "/repo") 2 Demo.db
  = (Flow.Return (App.ReindexOk 3 3 2),
     ([ Demo.stored "/other" "a.py" "abc" 3 ]
      ++ snd (Flow.index_repository Demo.encode Demo.storable 500 100 Demo.fs "/repo" false []))%list).
Proof.
  rewrite (proj2 (C9_reindex_is_forced_index Demo.encode Demo.storable 500 100 Demo.fs
                    "/repo" 2 Demo.db ltac:(discriminate))).
  vm_compute. reflexivity.
Defined.

(** ** The scanner *)

Module Scan.
Import Flow Spec.

Lemma walk_file repo_path root name entries f content mtime :
  Fs.File f content mtime ∈ entries →
  _should_index (Py.path_join root f) = true →
  Py.path_join root f ∈ walk repo_path root (Fs.Dir name entries).
Proof.
  intros Hin Hidx. simpl. apply elem_of_app. left.
  apply list_elem_of_In, filter_In. split; [|done].
  apply list_elem_of_In, list_elem_of_fmap_2.
  apply (list_elem_of_fmap_2' Fs.name_of _ (Fs.File f content mtime)); [|done].
  apply list_elem_of_In, filter_In. split; [by apply list_elem_of_In|done].
Qed.

Lemma walk_sub repo_path root name entries name' entries' p :
  Fs.Dir name' entries' ∈ entries →
  _should_skip (Py.path_join root name') repo_path = false →
  p ∈ walk repo_path (Py.path_join root name') (Fs.Dir name' entries') →
  p ∈ walk repo_path root (Fs.Dir name entries).
Proof.
  intros Hin Hskip Hp. cbn [walk]. apply elem_of_app. right.
  apply list_elem_of_In, in_flat_map. exists (Fs.Dir name' entries').
  split; [by apply list_elem_of_In|]. rewrite Hskip. by apply list_elem_of_In.
Qed.

Lemma walk_visited repo_path top root n :
  visited repo_path top root n →
  ∀ p, p ∈ walk repo_path root n → p ∈ walk repo_path repo_path top.
Proof.
  induction 1 as [|root name entries name' entries' _ IH Hin Hskip]; intros p Hp; [done|].
  apply IH. by eapply walk_sub.
Qed.

(** Induction on a tree, with the property for all entries of a
    directory. *)
Lemma node_ind_entries (P : Fs.node → Prop) :
  (∀ name content mtime, P (Fs.File name content mtime)) →
  (∀ name entries, Forall P entries → P (Fs.Dir name entries)) →
  ∀ n, P n.
Proof.
  intros Hfile Hdir. fix IH 1. intros [name content mtime|name entries]; [apply Hfile|].
  apply Hdir. induction entries as [|e entries IHentries]; constructor; [apply IH|done].
Qed.

(** Whatever the walk returns passed the extension test. *)
Lemma walk_indexable repo_path n : ∀ root p,
  p ∈ walk repo_path root n → _should_index p = true.
Proof.
  induction n as [name content mtime|name entries IH] using node_ind_entries;
    intros root p Hp; [by apply elem_of_nil in Hp|].
  cbn [walk] in Hp. apply elem_of_app in Hp as [Hp|Hp].
  - by apply list_elem_of_In, filter_In in Hp as [_ Hp].
  - apply list_elem_of_In, in_flat_map in Hp as (d & Hd & Hp).
    destruct d as [|name' entries']; [done|].
    destruct (_should_skip _ _); [done|].
    apply list_elem_of_In in Hd, Hp.
    exact (proj1 (Forall_forall _ _) IH (Fs.Dir name' entries') Hd _ p Hp).
Qed.

(** A needle that occurs in a text starts with a character of it; so a
    needle starting with a character foreign to the text does not
    occur. *)
Lemma contains_head a needle hay :
  Py.contains (String a needle) hay = true →
  Py.contains (String a EmptyString) hay = true.
Proof.
  induction hay as [|b hay IH]; simpl; [done|].
  intros [Hpre|Hrest]%orb_true_iff.
  - destruct (Ascii.ascii_dec a b) as [->|Hne]; [|done].
    by destruct hay.
  - rewrite (IH Hrest). apply orb_true_r.
Qed.

Lemma star_pattern_never_matches needle rel :
  Py.contains "*" rel = false → Py.contains (String "*" needle) rel = false.
Proof.
  intros Hstar. destruct (Py.contains (String "*" needle) rel) eqn:Hc; [|done].
  apply contains_head in Hc. congruence.
Qed.

Section Indexed.
Context {Embedding : Type}.
Variable encode : list string → option (list Embedding).
Variable storable : Row.t Embedding → bool.
Variables MAX_CHUNK_SIZE CHUNK_OVERLAP : Z.
Variable fs : gmap string Fs.node.

(** A candidate that is read, chunked, embedded and accepted has its
    rows in the table when [index_repository] returns. *)
Lemma candidate_indexed repo_path force db f content mtime chunks embeddings :
  is_Some (fs !! repo_path) →
  CHUNK_OVERLAP < MAX_CHUNK_SIZE →
  f ∈ _collect_files fs repo_path →
  Fs.lookup_file fs repo_path f = Some (Some content, mtime) →
  Chunking.smart_chunk (Fs.relpath f repo_path) content MAX_CHUNK_SIZE CHUNK_OVERLAP false
    = Some chunks →
  encode (Chunking.chunk_text <$> chunks) = Some embeddings →
  (∀ pair, pair ∈ zip chunks embeddings →
     storable (chunk_row repo_path (Fs.relpath f repo_path) mtime (fst pair) (snd pair)) = true) →
  ∀ pair, pair ∈ zip chunks embeddings →
    chunk_row repo_path (Fs.relpath f repo_path) mtime (fst pair) (snd pair)
    ∈ snd (index_repository encode storable MAX_CHUNK_SIZE CHUNK_OVERLAP fs repo_path force db).
Proof.
  intros Hsome Hov Hf Hfile Hchunks Henc Hok pair Hpair.
  rewrite Index.index_repository_existing by done. simpl.
  apply elem_of_app. right. apply list_elem_of_In, in_flat_map.
  exists f. split; [by apply list_elem_of_In|]. apply list_elem_of_In.
  unfold Spec.file_rows, _index_file. rewrite Hfile, Hchunks.
  destruct chunks as [|c cs]; [by apply elem_of_nil in Hpair|].
  rewrite Henc. unfold mbind, M_bind, bind.
  rewrite Index.insert_chunks_accepted by done. simpl.
  by apply (list_elem_of_fmap_2'
              (fun pair => chunk_row repo_path (Fs.relpath f repo_path) mtime (fst pair) (snd pair))
              _ pair).
Qed.

End Indexed.
End Scan.

(** C10. Skip patterns are applied to directories only; files are
    filtered by extension alone.  Every file of a directory the walk
    reaches whose extension is allow-listed is a candidate, whatever
    its name, and every candidate has an allow-listed extension; when
    the file can be read, chunked, embedded and stored, its rows are in
    the table after [index_repository].  The two file-level patterns clean to
    ["*.min.js"] and ["*.lock"], which keep a [*]: they match no
    relative path free of [*], so a directory is pruned only by one of
    the other patterns. *)
Theorem C10_file_patterns_exclude_nothing {Embedding : Type}
    (encode : list string → option (list Embedding))
    (storable : Row.t Embedding → bool) (MAX_CHUNK_SIZE CHUNK_OVERLAP : Z)
    (fs : gmap string Fs.node) (repo_path : string) (top : Fs.node)
    (root name : string) (entries : list Fs.node)
    (f : string) (content : option string) (mtime : Q) :
  fs !! repo_path = Some top →
  Spec.visited repo_path top root (Fs.Dir name entries) →
  Fs.File f content mtime ∈ entries →
  Flow._should_index (Py.path_join root f) = true →
  Py.path_join root f ∈ Flow._collect_files fs repo_path ∧
  (∀ p, p ∈ Flow._collect_files fs repo_path → Flow._should_index p = true) ∧
  (∀ force db text file_mtime chunks embeddings,
     CHUNK_OVERLAP < MAX_CHUNK_SIZE →
     Fs.lookup_file fs repo_path (Py.path_join root f) = Some (Some text, file_mtime) →
     smart_chunk (Fs.relpath (Py.path_join root f) repo_path) text
       MAX_CHUNK_SIZE CHUNK_OVERLAP false = Some chunks →
     encode (chunk_text <$> chunks) = Some embeddings →
     (∀ pair, pair ∈ zip chunks embeddings →
        storable (Flow.chunk_row repo_path (Fs.relpath (Py.path_join root f) repo_path)
                    file_mtime (fst pair) (snd pair)) = true) →
     ∀ pair, pair ∈ zip chunks embeddings →
       Flow.chunk_row repo_path (Fs.relpath (Py.path_join root f) repo_path)
         file_mtime (fst pair) (snd pair)
       ∈ snd (Flow.index_repository encode storable MAX_CHUNK_SIZE CHUNK_OVERLAP fs
                repo_path force db)) ∧
  Py.replace "/**" "" (Py.replace "**/" "" "**/*.min.js") = "*.min.js" ∧
  Py.replace "/**" "" (Py.replace "**/" "" "**/*.lock") = "*.lock" ∧
  (∀ path,
     Py.contains "*" (Fs.relpath path repo_path) = false →
     Py.contains "*.min.js" (Fs.relpath path repo_path) = false ∧
     Py.contains "*.lock" (Fs.relpath path repo_path) = false ∧
     (Flow._should_skip path repo_path = true →
      ∃ pattern, pattern ∈ Config.SKIP_PATTERNS ∧
                 pattern ≠ "**/*.min.js" ∧ pattern ≠ "**/*.lock" ∧
                 Py.contains (Py.replace "/**" "" (Py.replace "**/" "" pattern))
                   (Fs.relpath path repo_path) = true)).
Proof.
  intros Hfs Hvis Hin Hidx.
  assert (Hcand : Py.path_join root f ∈ Flow._collect_files fs repo_path).
  { unfold Flow._collect_files. rewrite Hfs.
    apply (Scan.walk_visited _ _ _ _ Hvis). by eapply Scan.walk_file. }
  split; [done|]. split.
  { intros p. unfold Flow._collect_files. rewrite Hfs. apply Scan.walk_indexable. }
  split.
  { intros force db text file_mtime chunks embeddings Hov Hfile Hchunks Henc Hok.
    eapply Scan.candidate_indexed; eauto. }
  split; [reflexivity|]. split; [reflexivity|].
  intros path Hstar.
  pose proof (Scan.star_pattern_never_matches ".min.js" _ Hstar) as Hmin.
  pose proof (Scan.star_pattern_never_matches ".lock" _ Hstar) as Hlock.
  split; [done|]. split; [done|].
  unfold Flow._should_skip. intros (pattern & Hpat & Hmatch)%existsb_exists.
  exists pattern. split; [by apply list_elem_of_In|].
  split; [|split; [|done]]; intros ->.
  - change (Py.replace "/**" "" (Py.replace "**/" "" "**/*.min.js")) with "*.min.js" in Hmatch.
    congruence.
  - change (Py.replace "/**" "" (Py.replace "**/" "" "**/*.lock")) with "*.lock" in Hmatch.
    congruence.
Qed.

Lemma C10_file_patterns_exclude_nothing_witness :
  Flow._should_index "/repo/x.min.js" = true ∧
  "/repo/x.min.js" ∈ Flow._collect_files Demo.fs "/repo" ∧
  Flow.chunk_row "/repo" "x.min.js" 14
    (whole_file_chunk "x.min.js" "var a=1;" "javascript" 1) 8
  ∈ snd (Flow.index_repository Demo.encode Demo.storable 500 100 Demo.fs "/repo" true Demo.db).
Proof.
  destruct (C10_file_patterns_exclude_nothing Demo.encode Demo.storable 500 100
              Demo.fs "/repo" Demo.repo "/repo" "repo"
              [ Fs.File "ok.py" (Some "print(1)") 10;
                Fs.File "binary.py" None 11;
                Fs.File "model.py" (Some "x = '<unencodable>'") 12;
                Fs.File "store.py" (Some "y = '<rejected>'") 13;
                Fs.File "x.min.js" (Some "var a=1;") 14;
                Fs.File "yarn.lock" (Some "lock") 15;
                Fs.Dir "node_modules" [ Fs.File "dep.js" (Some "dep") 16 ];
                Fs.Dir "src" [ Fs.File "lib.min.js" (Some "var b=2;") 17 ] ]
              "x.min.js" (Some "var a=1;") 14)
    as (Hcand & _ & Hrows & _).
  - reflexivity.
  - exact (Spec.visited_top "/repo" Demo.repo).
  - do 4 apply list_elem_of_further. apply list_elem_of_here.
  - reflexivity.
  - split; [reflexivity|]. split; [exact Hcand|].
    refine (Hrows true Demo.db "var a=1;" 14%Q
              [whole_file_chunk "x.min.js" "var a=1;" "javascript" 1] [8] _ _ _ _ _
              (whole_file_chunk "x.min.js" "var a=1;" "javascript" 1, 8) _).
    + lia.
    + reflexivity.
    + reflexivity.
    + reflexivity.
    + intros pair Hp. apply list_elem_of_singleton in Hp as ->. reflexivity.
    + apply list_elem_of_here.
Defined.

(** ** Search *)

Module Search.
Import Flow Spec.

Lemma slice_to_take {A} (l : list A) (hi : Z) :
  0 <= hi → Py.slice_to l hi = take (Z.to_nat hi) l.
Proof.
  intros Hhi. unfold Py.slice_to, Py.slice, Py.clamp.
  destruct (Z.ltb_spec 0 0); [lia|]. destruct (Z.ltb_spec hi 0); [lia|].
  rewrite (Z.min_l 0) by lia. change (Z.to_nat 0) with 0%nat. rewrite drop_0, Z.sub_0_r.
  destruct (Z.le_gt_cases hi (Z.of_nat (length l))).
  - by rewrite Z.min_l by lia.
  - rewrite Z.min_r, Nat2Z.id by lia. by rewrite !firstn_all2 by lia.
Qed.

Lemma StronglySorted_take {A} (R : A → A → Prop) (l : list A) (n : nat) :
  StronglySorted R l → StronglySorted R (take n l).
Proof.
  intros Hl. revert n. induction Hl as [|x l Hl IH Hx]; intros [|n]; simpl;
    try constructor; auto. by apply Forall_take.
Qed.

Lemma StronglySorted_filter {A} (R : A → A → Prop) (f : A → bool) (l : list A) :
  StronglySorted R l → StronglySorted R (List.filter f l).
Proof.
  induction 1 as [|x l Hl IH Hx]; simpl; [constructor|].
  destruct (f x); [|done]. constructor; [done|].
  apply Forall_forall. intros y [Hy _]%list_elem_of_In%filter_In.
  by apply (proj1 (Forall_forall _ _) Hx), list_elem_of_In.
Qed.

Section Distance.
Context {Embedding : Type}.
Variable cosine_distance : Embedding → Embedding → Q.
Variable q : Embedding.

Abbreviation nearer := (Spec.nearer cosine_distance q).

Lemma Forall_insert_by_distance (P : Row.t Embedding → Prop) r l :
  P r → Forall P l → Forall P (insert_by_distance cosine_distance q r l).
Proof.
  intros Hr. induction 1 as [|r' l Hr' Hl IH]; simpl; [by repeat constructor|].
  destruct (Qle_bool _ _); repeat constructor; auto.
Qed.

Lemma insert_by_distance_sorted r l :
  StronglySorted nearer l →
  StronglySorted nearer (insert_by_distance cosine_distance q r l).
Proof.
  induction 1 as [|r' l Hl IH Hr']; simpl; [by repeat constructor|].
  destruct (Qle_bool _ _) eqn:Hle.
  - apply Qle_bool_iff in Hle. constructor; [by constructor|].
    constructor; [done|]. eapply Forall_impl; [exact Hr'|].
    intros x Hx. unfold Spec.nearer in *. by eapply Qle_trans.
  - constructor; [done|]. apply Forall_insert_by_distance; [|done].
    unfold Spec.nearer. apply Qlt_le_weak, Qnot_le_lt. intros Hle'%Qle_bool_iff. congruence.
Qed.

Lemma order_by_distance_sorted rows :
  StronglySorted nearer (order_by_distance cosine_distance q rows).
Proof.
  induction rows as [|r rows IH]; simpl; [constructor|].
  by apply insert_by_distance_sorted.
Qed.

End Distance.
Section Select.
Context {Embedding : Type}.
Variable cosine_distance : Embedding → Embedding → Q.

Lemma select_nearest_returns q repo_path k db (candidates : list (Row.t Embedding * Q)) db' :
  select_nearest cosine_distance q repo_path k db = (Return candidates, db') →
  db' = db ∧ 0 <= k ∧ best_first candidates.
Proof.
  unfold select_nearest. destruct (Z.ltb_spec k 0); [done|].
  intros [= <- <-]. split; [done|]. split; [done|].
  apply (StronglySorted_fmap _ (nearer cosine_distance q) _).
  - intros a b Hab. unfold Spec.nearer in Hab. simpl. lra.
  - apply StronglySorted_take, order_by_distance_sorted.
Qed.

Lemma ranked_results threshold (candidates : list (Row.t Embedding * Q)) (n : nat) :
  best_first candidates →
  ranked (take n (format_result <$>
                    List.filter (fun row => Qle_bool threshold (snd row)) candidates)).
Proof.
  intros Hbest. apply StronglySorted_take.
  apply (StronglySorted_fmap _ (fun a b : Row.t Embedding * Q => (snd b <= snd a)%Q) _); [done|].
  by apply StronglySorted_filter.
Qed.

End Select.
End Search.

(** C4. Whatever the query, the repository, the limit and the
    threshold, the sequence [search] returns is ranked by descending
    score, every score in it is at least the threshold, and it has at
    most [limit] elements: it is the first [limit] of the candidates
    fetched (nearest first) that pass [score >= threshold].  A candidate
    whose score equals the threshold passes, one below does not; when
    none passes the result is the empty list, not an error.  [search]
    does return whenever the limit is not negative and the query is
    embedded. *)
Theorem C4_search {Embedding : Type}
    (encode : list string → option (list Embedding))
    (cosine_distance : Embedding → Embedding → Q)
    (db : list (Row.t Embedding)) (query repo_path : string)
    (limit : Z) (threshold : Q) :
  let passes := fun row : Row.t Embedding * Q => Qle_bool threshold (snd row) in
  (∀ results db',
     Flow.search encode cosine_distance query repo_path limit threshold db
       = (Flow.Return results, db') →
     db' = db ∧
     Spec.ranked results ∧
     (∀ r, r ∈ results → (threshold <= Result.score r)%Q) ∧
     Z.of_nat (length results) <= limit ∧
     ∃ q rest candidates,
       encode [query] = Some (q :: rest) ∧
       Flow.select_nearest cosine_distance q repo_path (limit * 2) db
         = (Flow.Return candidates, db) ∧
       results = take (Z.to_nat limit) (Flow.format_result <$> List.filter passes candidates) ∧
       (∀ c, c ∈ candidates → (snd c == threshold)%Q → c ∈ List.filter passes candidates) ∧
       (∀ c, c ∈ candidates → (snd c < threshold)%Q → c ∉ List.filter passes candidates) ∧
       ((∀ c, c ∈ candidates → (snd c < threshold)%Q) → results = [])) ∧
  (0 <= limit → ∀ q rest, encode [query] = Some (q :: rest) →
   ∃ results,
     Flow.search encode cosine_distance query repo_path limit threshold db
       = (Flow.Return results, db)).
Proof.
  intros passes. split.
  - intros results db'. unfold Flow.search.
    destruct (encode [query]) as [[|q rest]|] eqn:Henc; [done| |done].
    unfold mbind, Flow.M_bind, Flow.bind.
    destruct (Flow.select_nearest cosine_distance q repo_path (limit * 2) db)
      as [[candidates| |] db1] eqn:Hsel; [|done..].
    destruct (Search.select_nearest_returns _ _ _ _ _ _ _ Hsel) as (-> & Hk & Hbest).
    intros [= <- <-]. rewrite Search.slice_to_take by lia. fold passes.
    split; [done|]. split; [by apply Search.ranked_results|]. split; [|split].
    + intros r [i [Hr _]]%elem_of_take.
      apply list_elem_of_lookup_2, list_elem_of_fmap in Hr as (c & -> & Hc).
      apply list_elem_of_In, filter_In in Hc as [_ Hc]. by apply Qle_bool_iff in Hc.
    + rewrite length_take. lia.
    + exists q, rest, candidates. split; [done|]. split; [done|]. split; [done|].
      split; [|split].
      * intros c Hc Heq. apply list_elem_of_In, filter_In.
        split; [by apply list_elem_of_In|]. apply Qle_bool_iff. rewrite Heq. apply Qle_refl.
      * intros c Hc Hlt [_ Hp%Qle_bool_iff]%list_elem_of_In%filter_In. lra.
      * intros Hnone.
        replace (List.filter passes candidates) with (@nil (Row.t Embedding * Q));
          [by destruct (Z.to_nat limit)|].
        symmetry. clear Hsel Hbest. induction candidates as [|c cs IH]; [done|]. simpl.
        destruct (passes c) eqn:Hp.
        -- apply Qle_bool_iff in Hp. pose proof (Hnone c (list_elem_of_here _ _)). lra.
        -- apply IH. intros; by apply Hnone, list_elem_of_further.
  - intros Hlimit q rest Henc. unfold Flow.search. rewrite Henc.
    unfold mbind, Flow.M_bind, Flow.bind, Flow.select_nearest.
    destruct (Z.ltb_spec (limit * 2) 0); [lia|]. by eexists.
Qed.

Lemma C4_search_witness :
  ∃ results,
    Flow.search Demo.encode Demo.cosine_distance "parse" "/repo" 5 (7 # 10) Demo.indexed
      = (Flow.Return results, Demo.indexed) ∧
    Result.file_path <$> results = ["same.py"; "near.py"] ∧
    Spec.ranked results ∧
    (∀ r, r ∈ results → (7 # 10 <= Result.score r)%Q) ∧
    Z.of_nat (length results) <= 5.
Proof.
  destruct (C4_search Demo.encode Demo.cosine_distance Demo.indexed "parse" "/repo" 5 (7 # 10))
    as [Hsound Hreturns].
  destruct (Hreturns ltac:(lia) 5 [] eq_refl) as [results Hresults].
  destruct (Hsound results Demo.indexed Hresults) as (_ & Hranked & Hscore & Hlen & _).
  exists results. split; [exact Hresults|]. split; [|done].
  vm_compute in Hresults. by injection Hresults as <-.
Defined.

(** * Further properties

    ** The chunker: ranges, sizes and flags *)

Module ChunkMore.
Import Chunking.

Section Params.
Variables (fp content : string) (max_chunk_size chunk_overlap : Z).

Abbreviation total := (total_lines content).
Abbreviation emits :=
  (Chunking.emits fp (get_language_from_extension fp) (Py.split_lines content)
     total max_chunk_size chunk_overlap).
Abbreviation chunk_at :=
  (window_chunk fp (get_language_from_extension fp) (Py.split_lines content) total).

(** A loop that returns from the top of a file longer than a window
    makes progress. *)
Lemma emits_progress ws :
  max_chunk_size < total → emits 0 0 ws → chunk_overlap < max_chunk_size.
Proof.
  intros Hgt Hws. destruct (Z.lt_ge_cases chunk_overlap max_chunk_size); [done|].
  pose proof (ChunkCode.total_lines_pos content).
  exfalso. apply (Window.emits_stuck _ _ _ _ _ _ _ _ _ Hws); lia.
Qed.

(** What [chunk_code] returns, chunk by chunk: the whole file, or the
    [i]-th window with [total_chunks] filled in. *)
Lemma chunk_code_lookup fuel cs (i : nat) c :
  chunk_code_fuel fuel fp content max_chunk_size chunk_overlap = Some cs →
  cs !! i = Some c →
  (total <= max_chunk_size ∧ i = 0%nat ∧ cs = [c] ∧
   c = whole_file_chunk fp content (get_language_from_extension fp) total) ∨
  (max_chunk_size < total ∧ chunk_overlap < max_chunk_size ∧
   ∃ s, s = Z.of_nat i * (max_chunk_size - chunk_overlap) ∧ 0 <= s < total ∧
        c = set_total_chunks (Z.of_nat (length cs))
              (chunk_at (Z.of_nat i) s (Z.min (s + max_chunk_size) total)) ∧
        ((S i < length cs)%nat → Z.min (s + max_chunk_size) total < total) ∧
        (0 <= chunk_overlap → S i = length cs →
         Z.min (s + max_chunk_size) total = total)).
Proof.
  intros Hcs Hi.
  destruct (Z.le_gt_cases total max_chunk_size) as [Hle|Hgt].
  - left. rewrite ChunkCode.chunk_code_fuel_whole in Hcs by done. injection Hcs as <-.
    destruct i as [|i]; [|done]. by injection Hi as <-.
  - right. apply ChunkCode.chunk_code_fuel_window in Hcs as (ws & Hws & ->); [|lia].
    pose proof (emits_progress ws ltac:(lia) Hws) as Hov.
    split; [lia|]. split; [done|].
    apply ChunkCode.fill_lookup in Hi as (w & Hw & ->).
    destruct (Window.emits_lookup _ _ _ _ _ _ _ _ _ Hws i w Hw) as (s & Hs & Hlt & Hw').
    destruct (Window.emits_ends _ _ _ _ _ _ _ _ _ Hws i w Hw) as [Hbefore Hlast].
    rewrite Z.add_0_l in Hs, Hw'. subst w. simpl in Hbefore, Hlast.
    exists s. rewrite ChunkCode.fill_length.
    split; [done|]. split; [nia|]. split; [done|done].
Qed.

End Params.
End ChunkMore.

Import Chunking.

(** X1. Whenever [chunk_code] returns for a window of at least one
    line, every chunk lies within the file and is not empty:
    [1 <= start_line <= end_line <= total_lines]; it carries the path
    and the language of the file and the number of its lines. *)
Theorem chunk_ranges_within_file (fuel : nat) (fp content : string)
    (max_chunk_size chunk_overlap : Z) (cs : list Chunk) (c : Chunk) :
  1 <= max_chunk_size →
  chunk_code_fuel fuel fp content max_chunk_size chunk_overlap = Some cs →
  c ∈ cs →
  1 <= start_line c <= end_line c ∧ end_line c <= total_lines content ∧
  file_path c = fp ∧
  language c = get_language_from_extension fp ∧
  metadata c !! "total_lines" = Some (Py.Int (total_lines content)).
Proof.
  intros Hmax Hcs [i Hi]%list_elem_of_lookup.
  pose proof (ChunkCode.total_lines_pos content).
  destruct (ChunkMore.chunk_code_lookup _ _ _ _ _ _ _ _ Hcs Hi)
    as [(Hle & _ & _ & ->)|(Hgt & Hov & s & _ & Hs & -> & _)]; simpl.
  - repeat split; try done; lia.
  - repeat split; try done; lia.
Qed.

Lemma chunk_ranges_within_file_witness :
  ∃ cs, chunk_code "a.py" (blank_lines 6) 3 1 = Some cs ∧
        line_range <$> cs = [(1, 3); (3, 5); (5, 7)] ∧
        ∀ c, c ∈ cs → 1 <= start_line c <= end_line c ∧ end_line c <= 7.
Proof.
  eexists. split; [vm_compute; reflexivity|]. split; [reflexivity|].
  intros c Hc.
  destruct (chunk_ranges_within_file 8 "a.py" (blank_lines 6) 3 1 _ c ltac:(lia) eq_refl Hc)
    as (Hrange & Hend & _).
  split; [exact Hrange|exact Hend].
Defined.

(** X2. No chunk returned by [chunk_code] is longer than
    [max_chunk_size] lines, and every chunk but the last has exactly
    [max_chunk_size] lines. *)
Theorem chunk_size_bounded (fuel : nat) (fp content : string)
    (max_chunk_size chunk_overlap : Z) (cs : list Chunk) (i : nat) (c : Chunk) :
  chunk_code_fuel fuel fp content max_chunk_size chunk_overlap = Some cs →
  cs !! i = Some c →
  end_line c - start_line c + 1 <= max_chunk_size ∧
  ((S i < length cs)%nat → end_line c - start_line c + 1 = max_chunk_size).
Proof.
  intros Hcs Hi.
  destruct (ChunkMore.chunk_code_lookup _ _ _ _ _ _ _ _ Hcs Hi)
    as [(Hle & -> & -> & ->)|(Hgt & Hov & s & _ & Hs & -> & Hbefore & _)]; simpl.
  - split; [lia|]. simpl; lia.
  - split; [lia|]. intros Hlen. specialize (Hbefore Hlen). lia.
Qed.

Lemma chunk_size_bounded_witness :
  ∃ cs c, chunk_code "a.py" (blank_lines 6) 3 1 = Some cs ∧ cs !! 1%nat = Some c ∧
          end_line c - start_line c + 1 = 3.
Proof.
  eexists _, _. split; [vm_compute; reflexivity|]. split; [reflexivity|].
  refine (proj2 (chunk_size_bounded 8 "a.py" (blank_lines 6) 3 1 _ 1 _ eq_refl eq_refl) _).
  simpl; lia.
Defined.

(** X3. Every chunk carries [is_truncated], true exactly when the
    chunk ends before the last line of the file; with a non-negative
    overlap that is exactly when the chunk is not the last one. *)
Theorem is_truncated_flag (fuel : nat) (fp content : string)
    (max_chunk_size chunk_overlap : Z) (cs : list Chunk) (i : nat) (c : Chunk) :
  chunk_code_fuel fuel fp content max_chunk_size chunk_overlap = Some cs →
  cs !! i = Some c →
  metadata c !! "is_truncated" = Some (Py.Bool (end_line c <? total_lines content)) ∧
  (0 <= chunk_overlap →
   (end_line c <? total_lines content) = bool_decide (S i < length cs)%nat).
Proof.
  intros Hcs Hi.
  destruct (ChunkMore.chunk_code_lookup _ _ _ _ _ _ _ _ Hcs Hi)
    as [(Hle & -> & -> & ->)|(Hgt & Hov & s & _ & Hs & -> & Hbefore & Hlast)]; simpl.
  - rewrite Z.ltb_irrefl. split; [done|]. intros _. reflexivity.
  - split; [done|]. intros Hnonneg.
    assert (Hlen : (i < length cs)%nat) by (by eapply lookup_lt_Some).
    destruct (decide (S i < length cs)%nat) as [Hlt|Hge].
    + rewrite bool_decide_eq_true_2 by done. apply Z.ltb_lt. by apply Hbefore.
    + rewrite bool_decide_eq_false_2 by done. apply Z.ltb_ge.
      rewrite Hlast; [lia|done|lia].
Qed.

Lemma is_truncated_flag_witness :
  ∃ cs c0 c2, chunk_code "a.py" (blank_lines 6) 3 1 = Some cs ∧
    cs !! 0%nat = Some c0 ∧ cs !! 2%nat = Some c2 ∧
    metadata c0 !! "is_truncated" = Some (Py.Bool true) ∧
    metadata c2 !! "is_truncated" = Some (Py.Bool false).
Proof.
  eexists _, _, _. split; [vm_compute; reflexivity|].
  split; [reflexivity|]. split; [reflexivity|]. split.
  - exact (proj1 (is_truncated_flag 8 "a.py" (blank_lines 6) 3 1 _ 0 _ eq_refl eq_refl)).
  - exact (proj1 (is_truncated_flag 8 "a.py" (blank_lines 6) 3 1 _ 2 _ eq_refl eq_refl)).
Defined.

(** X4. The number of chunks of a file longer than a window, for
    [0 <= chunk_overlap < max_chunk_size]: with
    [step = max_chunk_size - chunk_overlap] it is the least [n >= 2]
    such that [(n - 1) * step + max_chunk_size] reaches the number of
    lines. *)
Theorem chunk_count (fuel : nat) (fp content : string)
    (max_chunk_size chunk_overlap : Z) (cs : list Chunk) :
  max_chunk_size < total_lines content →
  0 <= chunk_overlap < max_chunk_size →
  chunk_code_fuel fuel fp content max_chunk_size chunk_overlap = Some cs →
  let n := Z.of_nat (length cs) in
  let step := max_chunk_size - chunk_overlap in
  2 <= n ∧
  (n - 2) * step + max_chunk_size < total_lines content ∧
  total_lines content <= (n - 1) * step + max_chunk_size.
Proof.
  intros Hgt Hov Hcs n step.
  assert (Htwo : (1 < length cs)%nat).
  { pose proof Hcs as Hcs'.
    apply ChunkCode.chunk_code_fuel_window in Hcs' as (ws & Hws & ->); [|lia].
    rewrite ChunkCode.fill_length.
    by apply (ChunkCode.emits_two fp content max_chunk_size chunk_overlap); [|lia|]. }
  destruct (lookup_lt_is_Some_2 cs (length cs - 2)) as [c Hc]; [lia|].
  destruct (lookup_lt_is_Some_2 cs (length cs - 1)) as [c' Hc']; [lia|].
  destruct (ChunkMore.chunk_code_lookup _ _ _ _ _ _ _ _ Hcs Hc)
    as [(Hle & _)|(_ & _ & s & Hs & _ & _ & Hbefore & _)]; [lia|].
  destruct (ChunkMore.chunk_code_lookup _ _ _ _ _ _ _ _ Hcs Hc')
    as [(Hle & _)|(_ & _ & s' & Hs' & _ & _ & _ & Hlast)]; [lia|].
  specialize (Hbefore ltac:(lia)). specialize (Hlast ltac:(lia) ltac:(lia)).
  subst n step. split; [lia|].
  replace (Z.of_nat (length cs - 2)) with (Z.of_nat (length cs) - 2) in Hs by lia.
  replace (Z.of_nat (length cs - 1)) with (Z.of_nat (length cs) - 1) in Hs' by lia.
  subst s s'. lia.
Qed.

Lemma chunk_count_witness :
  ∃ cs, chunk_code "a.py" (blank_lines 1199) 500 100 = Some cs ∧
        (3 - 2) * (500 - 100) + 500 < 1200 <= (3 - 1) * (500 - 100) + 500 ∧
        Z.of_nat (length cs) = 3.
Proof.
  eexists. split; [vm_compute; reflexivity|]. split; [lia|].
  pose proof (chunk_count 1201 "a.py" (blank_lines 1199) 500 100 _
                ltac:(vm_compute; reflexivity) ltac:(lia) ltac:(vm_compute; reflexivity))
    as (_ & Hlow & Hhigh).
  assert (Ht : total_lines (blank_lines 1199) = 1200) by (vm_compute; reflexivity).
  rewrite Ht in Hlow, Hhigh. lia.
Defined.

(** ** The chunker: texts *)

Module Text.
Import Chunking.

Abbreviation nl := (String Py.newline EmptyString).
Abbreviation chars := String.list_ascii_of_string.

Lemma app_cons a (s t : string) : String a s +:+ t = String a (s +:+ t).
Proof. reflexivity. Qed.

Lemma app_nil_r (s : string) : s +:+ EmptyString = s.
Proof. induction s as [|a s IH]; [done|]. by rewrite app_cons, IH. Qed.

Lemma app_assoc (s1 s2 s3 : string) : (s1 +:+ s2) +:+ s3 = s1 +:+ (s2 +:+ s3).
Proof. induction s1 as [|a s1 IH]; [done|]. by rewrite !app_cons, IH. Qed.

Lemma join_cons x y ys :
  Py.join_lines (x :: y :: ys) = x +:+ nl +:+ Py.join_lines (y :: ys).
Proof. done. Qed.

Lemma join_app (a b : list string) :
  a ≠ [] → b ≠ [] →
  Py.join_lines (a ++ b) = Py.join_lines a +:+ nl +:+ Py.join_lines b.
Proof.
  intros Ha Hb. induction a as [|x a IH]; [done|].
  destruct a as [|y a].
  - destruct b as [|z b]; [done|]. done.
  - change ((x :: y :: a) ++ b)%list with (x :: y :: (a ++ b))%list.
    rewrite !join_cons. change (y :: (a ++ b))%list with ((y :: a) ++ b)%list.
    rewrite IH by done. by rewrite !app_assoc.
Qed.

(** Joining the lines of a text gives the text back. *)
Lemma join_split (s : string) : Py.join_lines (Py.split_lines s) = s.
Proof.
  induction s as [|c s IH]; simpl; [done|].
  destruct (Ascii.eqb_spec c Py.newline) as [->|Hc].
  - pose proof (ChunkCode.split_lines_nonempty s).
    destruct (Py.split_lines s) as [|l ls] eqn:Hs; [done|].
    rewrite join_cons, IH. done.
  - destruct (Py.split_lines s) as [|l ls] eqn:Hs.
    + by destruct (ChunkCode.split_lines_nonempty s).
    + destruct ls as [|l' ls]; [by rewrite <- IH|].
      rewrite join_cons. rewrite join_cons in IH. by rewrite app_cons, IH.
Qed.

Lemma split_lines_no_newline (s : string) :
  Forall (fun l => Py.newline ∉ chars l) (Py.split_lines s).
Proof.
  induction s as [|c s IH]; simpl.
  - constructor; [|done]. simpl. apply not_elem_of_nil.
  - destruct (Ascii.eqb_spec c Py.newline) as [->|Hc].
    + constructor; [apply not_elem_of_nil|done].
    + destruct (Py.split_lines s) as [|l ls].
      * constructor; [|done]. simpl. intros [?|[]%elem_of_nil]%elem_of_cons. congruence.
      * inversion IH as [|? ? Hl Hls]; subst. constructor; [|done].
        simpl. intros [?|?]%elem_of_cons; [congruence|done].
Qed.

Lemma split_lines_app_line (x s : string) :
  Py.newline ∉ chars x →
  Py.split_lines (x +:+ s)
  = match Py.split_lines s with
    | l :: ls => (x +:+ l) :: ls
    | [] => [x]
    end.
Proof.
  intros Hx. pose proof (ChunkCode.split_lines_nonempty s) as Hs.
  induction x as [|a x IH].
  - change (EmptyString +:+ s) with s. by destruct (Py.split_lines s).
  - simpl in Hx. apply not_elem_of_cons in Hx as [Ha Hx].
    rewrite app_cons. simpl.
    destruct (Ascii.eqb_spec a Py.newline) as [->|_]; [done|].
    rewrite (IH Hx). destruct (Py.split_lines s); [done|]. by rewrite app_cons.
Qed.

(** Splitting joined lines gives the lines back, when there is at
    least one and none holds a newline. *)
Lemma split_join (ls : list string) :
  ls ≠ [] → Forall (fun l => Py.newline ∉ chars l) ls →
  Py.split_lines (Py.join_lines ls) = ls.
Proof.
  intros Hne Hls. induction Hls as [|x ls Hx Hls IH]; [done|].
  destruct ls as [|y ls].
  - change (Py.join_lines [x]) with x. rewrite <- (app_nil_r x) at 1.
    rewrite split_lines_app_line by done. simpl. by rewrite app_nil_r.
  - rewrite join_cons, split_lines_app_line by done.
    change (Py.split_lines (nl +:+ Py.join_lines (y :: ls)))
      with (if Ascii.eqb Py.newline Py.newline
            then EmptyString :: Py.split_lines (Py.join_lines (y :: ls))
            else match Py.split_lines (Py.join_lines (y :: ls)) with
                 | l :: ls' => String Py.newline l :: ls'
                 | [] => [String Py.newline EmptyString]
                 end).
    rewrite Ascii.eqb_refl, IH by done. by rewrite app_nil_r.
Qed.

(** A slice within the bounds of the list. *)
Lemma slice_within {A} (l : list A) (lo hi : Z) :
  0 <= lo <= hi → hi <= Z.of_nat (length l) →
  Py.slice l lo hi = take (Z.to_nat (hi - lo)) (drop (Z.to_nat lo) l).
Proof.
  intros Hlo Hhi. unfold Py.slice, Py.clamp.
  destruct (Z.ltb_spec lo 0); [lia|]. destruct (Z.ltb_spec hi 0); [lia|].
  by rewrite !Z.min_l by lia.
Qed.

Section ZeroOverlap.
Variables (fp lang content : string) (max_chunk_size : Z).

Abbreviation lines := (Py.split_lines content).
Abbreviation total := (total_lines content).

(** With no overlap the texts of the chunks emitted from [start] are
    the lines from [start] on, cut into consecutive pieces. *)
Lemma emits_texts n start ws :
  Chunking.emits fp lang lines total max_chunk_size 0 n start ws →
  1 <= max_chunk_size → 0 <= start < total →
  ws ≠ [] ∧
  Py.join_lines (chunk_text <$> ws) = Py.join_lines (drop (Z.to_nat start) lines).
Proof.
  unfold total_lines.
  induction 1 as [n start Hge|n start Hlt Hb|n start ws Hlt Hc _ IH]; intros Hmax Hs.
  - lia.
  - split; [done|]. simpl.
    rewrite slice_within by lia. rewrite Z.min_r by lia.
    by rewrite firstn_all2 by (rewrite length_drop; lia).
  - rewrite Z.sub_0_r in IH. destruct (IH Hmax) as [Hne Hjoin]; [lia|].
    split; [done|]. rewrite Z.min_l in * by lia.
    destruct ws as [|w ws]; [done|].
    rewrite !fmap_cons in *. rewrite join_cons, Hjoin. simpl.
    rewrite slice_within by lia.
    replace (Z.to_nat (start + max_chunk_size - start)) with (Z.to_nat max_chunk_size) by lia.
    rewrite <- (take_drop (Z.to_nat max_chunk_size) (drop (Z.to_nat start) lines)) at 2.
    rewrite drop_drop.
    replace (Z.to_nat start + Z.to_nat max_chunk_size)%nat
      with (Z.to_nat (start + max_chunk_size)) by lia.
    rewrite join_app; [done| |].
    + intros Hnil%(f_equal length). rewrite length_take, length_drop in Hnil.
      simpl in Hnil. lia.
    + intros Hnil%(f_equal length). rewrite length_drop in Hnil. simpl in Hnil. lia.
Qed.

End ZeroOverlap.
End Text.

(** X5. The text of a chunk consists of the lines [start_line] to
    [end_line] of the file: splitting it gives back exactly those
    lines (for a window of at least one line). *)
Theorem chunk_text_is_its_lines (fuel : nat) (fp content : string)
    (max_chunk_size chunk_overlap : Z) (cs : list Chunk) (c : Chunk) :
  1 <= max_chunk_size →
  chunk_code_fuel fuel fp content max_chunk_size chunk_overlap = Some cs →
  c ∈ cs →
  Py.split_lines (chunk_text c)
  = take (Z.to_nat (end_line c - start_line c + 1))
      (drop (Z.to_nat (start_line c - 1)) (Py.split_lines content)).
Proof.
  intros Hmax Hcs [i Hi]%list_elem_of_lookup.
  pose proof (ChunkCode.total_lines_pos content) as Hpos.
  destruct (ChunkMore.chunk_code_lookup _ _ _ _ _ _ _ _ Hcs Hi)
    as [(Hle & _ & _ & ->)|(Hgt & Hov & s & _ & Hs & -> & _)]; simpl.
  - unfold total_lines. change (Z.to_nat (1 - 1)) with 0%nat. rewrite drop_0.
    by rewrite firstn_all2 by lia.
  - unfold total_lines in *. rewrite Text.slice_within by lia.
    replace (Z.min (s + max_chunk_size) (Z.of_nat (length (Py.split_lines content)))
             - (s + 1) + 1)
      with (Z.min (s + max_chunk_size) (Z.of_nat (length (Py.split_lines content))) - s)
      by lia.
    replace (s + 1 - 1) with s by lia. apply Text.split_join.
    + intros Hnil%(f_equal length). rewrite length_take, length_drop in Hnil.
      simpl in Hnil. lia.
    + apply Forall_take, Forall_drop, Text.split_lines_no_newline.
Qed.

Lemma chunk_text_is_its_lines_witness :
  ∃ cs c, chunk_code "a.py" (Py.join_lines ["a"; "b"; "c"; "d"; "e"]) 3 1 = Some cs ∧
          cs !! 1%nat = Some c ∧ line_range c = (3, 5) ∧
          Py.split_lines (chunk_text c) = ["c"; "d"; "e"].
Proof.
  destruct (chunk_code "a.py" (Py.join_lines ["a"; "b"; "c"; "d"; "e"]) 3 1)
    as [cs|] eqn:Hcs; [|by vm_compute in Hcs].
  destruct (cs !! 1%nat) as [c|] eqn:Hc; [|by vm_compute in Hcs; injection Hcs as <-].
  exists cs, c. split; [done|]. split; [done|].
  pose proof (chunk_text_is_its_lines 6 "a.py" (Py.join_lines ["a"; "b"; "c"; "d"; "e"]) 3 1
                cs c ltac:(lia) Hcs (list_elem_of_lookup_2 _ _ _ Hc)) as Hlines.
  vm_compute in Hcs. injection Hcs as <-. vm_compute in Hc. injection Hc as <-.
  split; [reflexivity|exact Hlines].
Defined.

(** X6. With [chunk_overlap = 0] the chunks partition the file:
    joining their texts with newlines gives the content back. *)
Theorem zero_overlap_reconstructs (fuel : nat) (fp content : string)
    (max_chunk_size : Z) (cs : list Chunk) :
  1 <= max_chunk_size →
  chunk_code_fuel fuel fp content max_chunk_size 0 = Some cs →
  Py.join_lines (chunk_text <$> cs) = content.
Proof.
  intros Hmax Hcs. pose proof (ChunkCode.total_lines_pos content) as Hpos.
  destruct (Z.le_gt_cases (total_lines content) max_chunk_size) as [Hle|Hgt].
  - rewrite ChunkCode.chunk_code_fuel_whole in Hcs by done. by injection Hcs as <-.
  - apply ChunkCode.chunk_code_fuel_window in Hcs as (ws & Hws & ->); [|lia].
    destruct (Text.emits_texts _ _ _ _ _ _ _ Hws Hmax) as [_ Hjoin]; [lia|].
    unfold fill_total_chunks. rewrite <- list_fmap_compose.
    change (chunk_text ∘ set_total_chunks (Z.of_nat (length ws))) with chunk_text.
    rewrite Hjoin. simpl. apply Text.join_split.
Qed.

Lemma zero_overlap_reconstructs_witness :
  ∃ cs, chunk_code "a.py" (Py.join_lines ["a"; "b"; "c"; "d"; "e"]) 2 0 = Some cs ∧
        chunk_text <$> cs = [Py.join_lines ["a"; "b"]; Py.join_lines ["c"; "d"]; "e"] ∧
        Py.join_lines (chunk_text <$> cs) = Py.join_lines ["a"; "b"; "c"; "d"; "e"].
Proof.
  eexists. split; [vm_compute; reflexivity|]. split; [reflexivity|].
  apply (zero_overlap_reconstructs 6 "a.py" (Py.join_lines ["a"; "b"; "c"; "d"; "e"]) 2);
    [lia|reflexivity].
Defined.

(** ** The languages of indexed files *)

(** X7. Every file with a known language is indexable, and an
    indexable file has the language ["unknown"] exactly when its
    (lower-cased) extension is [.vue] or [.svelte]: these two are
    allow-listed by [config.py] but absent from the language map of
    [chunking.py]. *)
Theorem language_of_indexable (path : string) :
  let ext := Py.lower (Py.splitext_ext path) in
  (get_language_from_extension path ≠ "unknown" → Flow._should_index path = true) ∧
  (Flow._should_index path = true →
   (get_language_from_extension path = "unknown" ↔ ext = ".vue" ∨ ext = ".svelte")).
Proof.
  intros ext. unfold get_language_from_extension, Flow._should_index. fold ext.
  generalize ext. clear ext path. intros ext. split.
  - destruct (lang_map !! ext) as [l|] eqn:Hl; [|done]. intros _.
    apply elem_of_list_to_map_2, list_elem_of_In in Hl. simpl in Hl.
    repeat (destruct Hl as [[= <- <-]|Hl]; [reflexivity|]). done.
  - intros (x & Hx & <-%String.eqb_eq)%existsb_exists. simpl in Hx.
    repeat (destruct Hx as [<-|Hx];
            [split;
             [intros H; vm_compute in H;
              first [discriminate H|left; reflexivity|right; reflexivity]
             |intros [H|H]; first [discriminate H|reflexivity]]|]).
    done.
Qed.

Lemma language_of_indexable_witness :
  Flow._should_index "web/App.VUE" = true ∧
  get_language_from_extension "web/App.VUE" = "unknown" ∧
  get_language_from_extension "lib/Parser.PY" = "python".
Proof.
  split; [reflexivity|]. split; [|reflexivity].
  apply (proj2 (language_of_indexable "web/App.VUE")); [reflexivity|].
  left. reflexivity.
Defined.

(** ** The scanner: which files are candidates *)

Module ScanMore.
Import Flow Spec.

(** Every path the walk returns from a directory reached is an
    allow-listed file of a directory reached. *)
Lemma walk_sources repo_path top n : ∀ root p,
  visited repo_path top root n →
  p ∈ walk repo_path root n →
  ∃ root' name entries f content mtime,
    visited repo_path top root' (Fs.Dir name entries) ∧
    Fs.File f content mtime ∈ entries ∧
    p = Py.path_join root' f ∧ _should_index p = true.
Proof.
  induction n as [name content mtime|name entries IH] using Scan.node_ind_entries;
    intros root p Hvis Hp; [by apply elem_of_nil in Hp|].
  cbn [walk] in Hp. apply elem_of_app in Hp as [Hp|Hp].
  - apply list_elem_of_In, filter_In in Hp as [Hp Hidx].
    apply list_elem_of_In, list_elem_of_fmap in Hp as (f & -> & Hf).
    apply list_elem_of_fmap in Hf as (e & -> & He).
    apply list_elem_of_In, filter_In in He as [He Hfile].
    destruct e as [f content mtime|]; [|done].
    exists root, name, entries, f, content, mtime.
    split; [done|]. split; [by apply list_elem_of_In|done].
  - apply list_elem_of_In, in_flat_map in Hp as (d & Hd & Hp).
    destruct d as [|name' entries']; [done|].
    destruct (_should_skip _ _) eqn:Hskip; [done|].
    apply list_elem_of_In in Hd, Hp.
    apply (proj1 (Forall_forall _ _) IH (Fs.Dir name' entries') Hd
             (Py.path_join root name') p); [|done].
    by eapply visited_sub.
Qed.

Lemma prefix_app (a b : string) : String.prefix a (a +:+ b) = true.
Proof.
  induction a as [|c a IH]; [by destruct b|].
  rewrite Text.app_cons. simpl. by destruct (Ascii.ascii_dec c c).
Qed.

Lemma length_app (a b : string) :
  String.length (a +:+ b) = (String.length a + String.length b)%nat.
Proof. induction a as [|c a IH]; [done|]. rewrite Text.app_cons. simpl. by rewrite IH. Qed.

Lemma substring_all (b : string) : String.substring 0 (String.length b) b = b.
Proof. induction b as [|c b IH]; [done|]. simpl. by rewrite IH. Qed.

Lemma substring_app (a b : string) :
  String.substring (String.length a) (String.length b) (a +:+ b) = b.
Proof.
  induction a as [|c a IH]; [apply substring_all|].
  rewrite Text.app_cons. simpl. exact IH.
Qed.

(** The relative path of an entry joined onto a directory is the name
    of the entry. *)
Lemma relpath_rest (name : string) :
  name ≠ EmptyString → String.prefix "/" name = false →
  (if String.eqb (Fs.lstrip_sep name) EmptyString then "." else Fs.lstrip_sep name) = name.
Proof.
  intros Hne Hslash. destruct name as [|a name]; [done|].
  assert (Ha : Ascii.eqb a "/" = false).
  { destruct (Ascii.eqb_spec a "/") as [->|]; [|done].
    simpl in Hslash. by destruct name. }
  cbn [Fs.lstrip_sep]. by rewrite Ha.
Qed.

Lemma relpath_join (root name : string) :
  name ≠ EmptyString → String.prefix "/" name = false →
  Fs.relpath (Py.path_join root name) root = name.
Proof.
  intros Hne Hslash.
  assert (Hjoin : Py.path_join root name = root +:+ name ∨
                  Py.path_join root name = root +:+ ("/" +:+ name)).
  { unfold Py.path_join. destruct (orb _ _); auto. }
  unfold Fs.relpath. destruct Hjoin as [-> | ->]; rewrite prefix_app, length_app.
  - replace (String.length root + String.length name - String.length root)%nat
      with (String.length name) by lia.
    rewrite substring_app. by apply relpath_rest.
  - replace (String.length root + String.length ("/" +:+ name) - String.length root)%nat
      with (String.length ("/" +:+ name)) by lia.
    rewrite substring_app.
    change ("/" +:+ name) with (String "/" name).
    cbn [Fs.lstrip_sep]. change (Ascii.eqb "/" "/") with true. cbn iota.
    by apply relpath_rest.
Qed.

End ScanMore.

(** X8. The candidates of [_collect_files] are exactly the files with
    an allow-listed extension that lie in a directory the walk reaches:
    no file below a pruned directory is ever a candidate. *)
Theorem candidates_are_files_of_reached_directories
    (fs : gmap string Fs.node) (repo_path : string) (top : Fs.node) (p : string) :
  fs !! repo_path = Some top →
  p ∈ Flow._collect_files fs repo_path ↔
  ∃ root name entries f content mtime,
    Spec.visited repo_path top root (Fs.Dir name entries) ∧
    Fs.File f content mtime ∈ entries ∧
    p = Py.path_join root f ∧ Flow._should_index p = true.
Proof.
  intros Hfs. unfold Flow._collect_files. rewrite Hfs. split.
  - apply ScanMore.walk_sources. constructor.
  - intros (root & name & entries & f & content & mtime & Hvis & Hf & -> & Hidx).
    apply (Scan.walk_visited _ _ _ _ Hvis). by eapply Scan.walk_file.
Qed.

Lemma candidates_are_files_of_reached_directories_witness :
  "/repo/src/lib.min.js" ∈ Flow._collect_files Demo.fs "/repo" ∧
  "/repo/node_modules/dep.js" ∉ Flow._collect_files Demo.fs "/repo".
Proof.
  split.
  - apply (proj2 (candidates_are_files_of_reached_directories Demo.fs "/repo" Demo.repo
                    "/repo/src/lib.min.js" eq_refl)).
    exists "/repo/src", "src", [Fs.File "lib.min.js" (Some "var b=2;") 17],
      "lib.min.js", (Some "var b=2;"), 17%Q.
    split; [|split; [apply list_elem_of_here|split; reflexivity]].
    apply (Spec.visited_sub "/repo" Demo.repo "/repo" "repo" _ "src" _
             (Spec.visited_top "/repo" Demo.repo));
      [do 7 apply list_elem_of_further; apply list_elem_of_here|reflexivity].
  - intros Hin. vm_compute in Hin.
    repeat (apply elem_of_cons in Hin as [Hin|Hin]; [discriminate Hin|]).
    by apply elem_of_nil in Hin.
Defined.

(** X9. Skip patterns act as substrings: a directory directly below
    the repository root whose name merely contains one of the words
    left after stripping the wildcard markers is pruned. *)
Theorem directories_pruned_by_substring (repo_path name word : string) :
  name ≠ EmptyString → String.prefix "/" name = false →
  word ∈ [ "node_modules"; "dist"; "build"; "vendor"; ".git"; "target";
           "__pycache__"; "venv"; "coverage"; ".next"; ".cache" ] →
  Py.contains word name = true →
  Flow._should_skip (Py.path_join repo_path name) repo_path = true.
Proof.
  intros Hne Hslash Hword Hin. unfold Flow._should_skip.
  rewrite ScanMore.relpath_join by done. apply existsb_exists.
  apply list_elem_of_In in Hword. simpl in Hword.
  repeat (destruct Hword as [<-|Hword];
          [match goal with
           | H : Py.contains ?w _ = true |- _ =>
               exists ("**/" +:+ w +:+ "/**"); split; [vm_compute; tauto|exact H]
           end|]).
  destruct Hword.
Qed.

Lemma directories_pruned_by_substring_witness :
  Flow._should_skip "/repo/distribution" "/repo" = true ∧
  Flow._should_skip "/repo/rebuild" "/repo" = true.
Proof.
  split.
  - apply (directories_pruned_by_substring "/repo" "distribution" "dist");
      [discriminate|reflexivity| |reflexivity].
    apply list_elem_of_further, list_elem_of_here.
  - apply (directories_pruned_by_substring "/repo" "rebuild" "build");
      [discriminate|reflexivity| |reflexivity].
    do 2 apply list_elem_of_further. apply list_elem_of_here.
Defined.

(** ** The table: what indexing keeps and what it adds *)

Module Table.
Import Flow Spec Frame.

Section Rows.
Context {Embedding : Type}.
Implicit Types db rows : list (Row.t Embedding).

Lemma others_app repo_path db rows :
  others repo_path (db ++ rows) = (others repo_path db ++ others repo_path rows)%list.
Proof. apply List.filter_app. Qed.

Lemma others_idemp repo_path db : others repo_path (others repo_path db) = others repo_path db.
Proof.
  induction db as [|r db IH]; [done|]. unfold others in *. simpl.
  destruct (negb _) eqn:Hr; simpl; rewrite ?Hr; congruence.
Qed.

Lemma others_own repo_path rows :
  (∀ r, r ∈ rows → Row.repo_path r = repo_path) → others repo_path rows = [].
Proof.
  induction rows as [|r rows IH]; intros Hown; [done|]. unfold others in *. simpl.
  rewrite (Hown r (list_elem_of_here _ _)), String.eqb_refl. simpl.
  apply IH. intros; by apply Hown, list_elem_of_further.
Qed.

Lemma select_others repo_path other db :
  other ≠ repo_path →
  List.filter (fun r => String.eqb (Row.repo_path r) other) (others repo_path db)
  = List.filter (fun r => String.eqb (Row.repo_path r) other) db.
Proof.
  intros Hne. induction db as [|r db IH]; [done|]. unfold others in *. simpl.
  destruct (String.eqb_spec (Row.repo_path r) repo_path) as [Hr|Hr]; simpl.
  - rewrite Hr. destruct (String.eqb_spec repo_path other); [congruence|done].
  - by rewrite IH.
Qed.

Lemma select_own repo_path other rows :
  other ≠ repo_path →
  (∀ r, r ∈ rows → Row.repo_path r = repo_path) →
  List.filter (fun r => String.eqb (Row.repo_path r) other) rows = [].
Proof.
  intros Hne. induction rows as [|r rows IH]; intros Hown; [done|]. simpl.
  rewrite (Hown r (list_elem_of_here _ _)).
  destruct (String.eqb_spec repo_path other); [congruence|].
  apply IH. intros; by apply Hown, list_elem_of_further.
Qed.

Lemma select_cleared repo_path db :
  List.filter (fun r => String.eqb (Row.repo_path r) repo_path) (others repo_path db) = [].
Proof.
  induction db as [|r db IH]; [done|]. unfold others in *. simpl.
  destruct (String.eqb (Row.repo_path r) repo_path) eqn:Hr; simpl; [done|by rewrite Hr].
Qed.

End Rows.

Section Service.
Context {Embedding : Type}.
Variable encode : list string → option (list Embedding).
Variable storable : Row.t Embedding → bool.
Variables MAX_CHUNK_SIZE CHUNK_OVERLAP : Z.
Variable fs : gmap string Fs.node.

Abbreviation _index_file := (Flow._index_file encode storable MAX_CHUNK_SIZE CHUNK_OVERLAP fs).
Abbreviation index_files := (Flow.index_files encode storable MAX_CHUNK_SIZE CHUNK_OVERLAP fs).
Abbreviation index_repository := (Flow.index_repository encode storable MAX_CHUNK_SIZE CHUNK_OVERLAP fs).
Abbreviation _collect_files := (Flow._collect_files fs).
Abbreviation file_outcome := (Spec.file_outcome encode storable MAX_CHUNK_SIZE CHUNK_OVERLAP fs).
Abbreviation file_rows := (Spec.file_rows encode storable MAX_CHUNK_SIZE CHUNK_OVERLAP fs).

(** The model returns one embedding for each text it is given. *)
Abbreviation one_embedding_per_text :=
  (∀ texts embeddings, encode texts = Some embeddings → length embeddings = length texts).

(** [insert_chunks] stores the rows of the pairs before the first one
    that is refused, all of them when it returns. *)
Lemma insert_chunks_rows repo_path rel mtime pairs : ∀ db,
  ∃ n, snd (insert_chunks storable repo_path rel mtime pairs db)
       = (db ++ ((fun pair => chunk_row repo_path rel mtime (fst pair) (snd pair))
                   <$> take n pairs))%list ∧
       (fst (insert_chunks storable repo_path rel mtime pairs db) = Return () →
        n = length pairs) ∧
       ((∀ r, storable r = true) →
        fst (insert_chunks storable repo_path rel mtime pairs db) = Return ()).
Proof.
  induction pairs as [|[c e] pairs IH]; intros db.
  - exists 0%nat. simpl. by rewrite app_nil_r.
  - simpl. unfold mbind, M_bind, bind, execute_insert.
    destruct (storable (chunk_row repo_path rel mtime c e)) eqn:Hst.
    + destruct (IH (db ++ [chunk_row repo_path rel mtime c e])%list) as (n & Hrows & Hall & Hok).
      exists (S n). rewrite Hrows. simpl. rewrite <- app_assoc.
      split; [done|]. split; [|done]. intros Hret. by rewrite (Hall Hret).
    + exists 0%nat. simpl. rewrite app_nil_r. split; [done|]. split; [done|].
      intros Hall. by rewrite Hall in Hst.
Qed.

(** Every row stored for a file is a chunk of its text, under its
    relative path and modification time. *)
Lemma file_rows_chunks repo_path file_path r :
  r ∈ file_rows repo_path file_path →
  ∃ content mtime chunks c e,
    Fs.lookup_file fs repo_path file_path = Some (Some content, mtime) ∧
    Chunking.smart_chunk (Fs.relpath file_path repo_path) content
      MAX_CHUNK_SIZE CHUNK_OVERLAP false = Some chunks ∧
    c ∈ chunks ∧
    r = chunk_row repo_path (Fs.relpath file_path repo_path) mtime c e.
Proof.
  unfold Spec.file_rows, Flow._index_file.
  destruct (Fs.lookup_file fs repo_path file_path) as [[[content|] mtime]|];
    [|by intros ?%elem_of_nil..].
  destruct (Chunking.smart_chunk _ _ _ _ _) as [[|c cs]|] eqn:Hchunks;
    [by intros ?%elem_of_nil| |by intros ?%elem_of_nil].
  destruct (encode _) as [es|]; [|by intros ?%elem_of_nil].
  unfold mbind, M_bind, bind.
  remember (zip (c :: cs) es) as pairs eqn:Hpairs.
  destruct (insert_chunks_rows repo_path (Fs.relpath file_path repo_path) mtime
              pairs []) as (n & Hrows & _).
  destruct (insert_chunks _ _ _ _ _ _) as [[[]|?|] db1]; simpl in Hrows; subst db1;
    simpl; intros ([c' e'] & -> & Hin)%list_elem_of_fmap;
    apply elem_of_take in Hin as (i & Hin & _);
    apply list_elem_of_lookup_2 in Hin; rewrite Hpairs in Hin;
    apply elem_of_zip_l in Hin;
    by exists content, mtime, (c :: cs), c', e'.
Qed.

(** With one embedding per text, a file that is counted stores as many
    rows as it counts chunks. *)
Lemma file_outcome_rows repo_path file_path n :
  one_embedding_per_text →
  file_outcome repo_path file_path = Return n →
  n = Z.of_nat (length (file_rows repo_path file_path)).
Proof.
  intros Hlen. unfold Spec.file_outcome, Spec.file_rows, Flow._index_file.
  destruct (Fs.lookup_file fs repo_path file_path) as [[[content|] mtime]|];
    [|by intros [= <-]..].
  destruct (Chunking.smart_chunk _ _ _ _ _) as [[|c cs]|] eqn:Hchunks;
    [by intros [= <-]| |done].
  destruct (encode _) as [es|] eqn:Henc; [|done].
  apply Hlen in Henc. rewrite length_fmap in Henc.
  unfold mbind, M_bind, bind.
  remember (zip (c :: cs) es) as pairs eqn:Hpairs.
  destruct (insert_chunks_rows repo_path (Fs.relpath file_path repo_path) mtime
              pairs []) as (k & Hrows & Hall & _).
  destruct (insert_chunks _ _ _ _ _ _) as [[[]|?|] db1]; simpl in Hrows, Hall |- *; [|done..].
  intros [= <-]. subst db1. rewrite (Hall eq_refl).
  rewrite firstn_all, length_fmap, Hpairs, length_zip, Henc.
  rewrite Nat.min_id. by rewrite length_cons.
Qed.

(** When the data base refuses no row, a file that raises has stored
    nothing. *)
Lemma file_raise_rows repo_path file_path e :
  (∀ r, storable r = true) →
  file_outcome repo_path file_path = Raise e →
  file_rows repo_path file_path = [].
Proof.
  intros Hst. unfold Spec.file_outcome, Spec.file_rows, Flow._index_file.
  destruct (Fs.lookup_file fs repo_path file_path) as [[[content|] mtime]|]; [|done..].
  destruct (Chunking.smart_chunk _ _ _ _ _) as [[|c cs]|]; [done| |done].
  destruct (encode _) as [es|]; [|done].
  unfold mbind, M_bind, bind.
  destruct (insert_chunks_rows repo_path (Fs.relpath file_path repo_path) mtime
              (zip (c :: cs) es) []) as (k & _ & _ & Hok).
  specialize (Hok Hst).
  by destruct (insert_chunks _ _ _ _ _ _) as [[[]|?|] db1].
Qed.

(** One turn of the loop over the files. *)
Lemma index_files_cons repo_path f files i c db :
  index_files repo_path (f :: files) i c db =
  match file_outcome repo_path f with
  | Return n =>
      index_files repo_path files (if 0 <? n then i + 1 else i)
        (if 0 <? n then c + n else c) (db ++ file_rows repo_path f)%list
  | Raise _ => index_files repo_path files i c (db ++ file_rows repo_path f)%list
  | Diverge => (Diverge, (db ++ file_rows repo_path f)%list)
  end.
Proof.
  simpl. unfold mbind, M_bind, bind, try_except.
  rewrite (Index.framed_index_file encode storable MAX_CHUNK_SIZE CHUNK_OVERLAP fs
             repo_path f db).
  fold (file_outcome repo_path f) (file_rows repo_path f).
  destruct (file_outcome repo_path f) as [n|e|]; cbn; [|done..].
  by destruct (0 <? n).
Qed.

(** The loop only appends, and what it appends are rows of the files
    it is given. *)
Lemma index_files_rows repo_path files : ∀ i c db,
  ∃ new, snd (index_files repo_path files i c db) = (db ++ new)%list ∧
         ∀ r, r ∈ new → ∃ f, f ∈ files ∧ r ∈ file_rows repo_path f.
Proof.
  induction files as [|f files IH]; intros i c db.
  - exists []. simpl. rewrite app_nil_r. split; [done|]. by intros r ?%elem_of_nil.
  - rewrite index_files_cons.
    assert (Hstep : ∀ i' c', ∃ new,
              snd (index_files repo_path files i' c' (db ++ file_rows repo_path f)%list)
              = (db ++ new)%list ∧
              ∀ r, r ∈ new → ∃ f', f' ∈ f :: files ∧ r ∈ file_rows repo_path f').
    { intros i' c'. destruct (IH i' c' (db ++ file_rows repo_path f)%list) as (new & -> & Hnew).
      exists (file_rows repo_path f ++ new)%list. rewrite <- app_assoc. split; [done|].
      intros r [Hr|Hr]%elem_of_app.
      - exists f. split; [apply list_elem_of_here|done].
      - destruct (Hnew r Hr) as (f' & Hf' & Hr'). exists f'.
        split; [by apply list_elem_of_further|done]. }
    destruct (file_outcome repo_path f) as [n|e|]; [apply Hstep..|].
    exists (file_rows repo_path f). split; [done|].
    intros r Hr. exists f. split; [apply list_elem_of_here|done].
Qed.

(** The counters of the loop. *)
Lemma index_files_counters repo_path files : ∀ i c db i' c' db',
  index_files repo_path files i c db = (Return (i', c'), db') →
  i <= i' <= i + Z.of_nat (length files) ∧ i' - i <= c' - c ∧
  (i' = i ↔ c' = c) ∧
  (one_embedding_per_text →
   c' - c <= Z.of_nat (length db') - Z.of_nat (length db) ∧
   ((∀ r, storable r = true) →
    c' - c = Z.of_nat (length db') - Z.of_nat (length db))).
Proof.
  induction files as [|f files IH]; intros i c db i' c' db'.
  - simpl. intros [= <- <- <-]. repeat split; intros; lia.
  - rewrite index_files_cons.
    destruct (file_outcome repo_path f) as [n|e|] eqn:Hf; [| |done].
    + intros Hrest. apply IH in Hrest as (Hi & Hc & Hzero & Hrows).
      rewrite length_cons, length_app in *.
      destruct (Z.ltb_spec 0 n) as [Hn|Hn].
      * split; [lia|]. split; [lia|]. split; [lia|].
        intros Hlen. pose proof (file_outcome_rows repo_path f n Hlen Hf) as Hfn.
        destruct (Hrows Hlen) as [Hle Heq]. split; [lia|].
        intros Hst. specialize (Heq Hst). lia.
      * split; [lia|]. split; [lia|]. split; [lia|].
        intros Hlen. pose proof (file_outcome_rows repo_path f n Hlen Hf) as Hfn.
        destruct (Hrows Hlen) as [Hle Heq]. split; [lia|].
        intros Hst. specialize (Heq Hst). lia.
    + intros Hrest. apply IH in Hrest as (Hi & Hc & Hzero & Hrows).
      rewrite length_cons, length_app in *.
      split; [lia|]. split; [lia|]. split; [lia|].
      intros Hlen. destruct (Hrows Hlen) as [Hle Heq]. split; [lia|].
      intros Hst. specialize (Heq Hst).
      rewrite (file_raise_rows repo_path f e Hst Hf) in *. simpl in *. lia.
Qed.

End Service.
End Table.

Module Repository.
Import Flow Spec Frame.

Section Service.
Context {Embedding : Type}.
Variable encode : list string → option (list Embedding).
Variable storable : Row.t Embedding → bool.
Variables MAX_CHUNK_SIZE CHUNK_OVERLAP : Z.
Variable fs : gmap string Fs.node.

Abbreviation index_files := (Flow.index_files encode storable MAX_CHUNK_SIZE CHUNK_OVERLAP fs).
Abbreviation index_repository := (Flow.index_repository encode storable MAX_CHUNK_SIZE CHUNK_OVERLAP fs).
Abbreviation _collect_files := (Flow._collect_files fs).
Abbreviation file_rows := (Spec.file_rows encode storable MAX_CHUNK_SIZE CHUNK_OVERLAP fs).

(** The rows a scan of the repository stores, started on the empty
    table. *)
Abbreviation scan repo_path := (index_repository repo_path false []).

Lemma framed_index_repository repo_path : framed (index_repository repo_path false).
Proof.
  unfold Flow.index_repository. destruct (negb _); [apply framed_raise|].
  apply framed_bind; [apply framed_ret|intros _].
  apply framed_bind; [apply Index.framed_index_files|intros; apply framed_ret].
Qed.

(** Whatever the table holds, a call ends as the scan does; it keeps
    the table, less the rows of the repository when forced on an
    existing path, and appends the rows of the scan. *)
Lemma index_repository_table repo_path force db :
  index_repository repo_path force db
  = (fst (scan repo_path),
     ((if force && Fs.exists_ fs repo_path then others repo_path db else db)
        ++ snd (scan repo_path))%list).
Proof.
  destruct (Fs.exists_ fs repo_path) eqn:Hex.
  - destruct force; simpl.
    + apply Index.index_repository_forced. by apply bool_decide_eq_true_1 in Hex.
    + apply framed_index_repository.
  - rewrite andb_false_r. unfold Flow.index_repository. rewrite Hex. simpl.
    by rewrite app_nil_r.
Qed.

Lemma scan_rows repo_path r :
  r ∈ snd (scan repo_path) →
  ∃ f, f ∈ _collect_files repo_path ∧ r ∈ file_rows repo_path f.
Proof.
  unfold Flow.index_repository. destruct (negb _); [by intros ?%elem_of_nil|].
  simpl. unfold mbind, M_bind, bind. cbn.
  destruct (Table.index_files_rows encode storable MAX_CHUNK_SIZE CHUNK_OVERLAP fs
              repo_path (_collect_files repo_path) 0 0 []) as (new & Hnew & Hrows).
  destruct (Flow.index_files _ _ _ _ _ _ _ _ _ _) as [[counts|e|] db1];
    simpl in Hnew; subst db1; simpl; apply Hrows.
Qed.

Lemma scan_own repo_path r : r ∈ snd (scan repo_path) → Row.repo_path r = repo_path.
Proof.
  intros (f & _ & Hr)%scan_rows.
  by apply Table.file_rows_chunks in Hr as (content & mtime & chunks & c & e & _ & _ & _ & ->).
Qed.

(** What a scan that returns reports. *)
Lemma scan_counters repo_path stats rows :
  scan repo_path = (Return stats, rows) →
  Stats.repo_path stats = repo_path ∧
  Stats.files_found stats = Z.of_nat (length (_collect_files repo_path)) ∧
  0 <= Stats.files_indexed stats <= Stats.files_found stats ∧
  Stats.files_indexed stats <= Stats.chunks_created stats ∧
  (Stats.files_indexed stats = 0 ↔ Stats.chunks_created stats = 0) ∧
  ((∀ texts embeddings, encode texts = Some embeddings → length embeddings = length texts) →
   Stats.chunks_created stats <= Z.of_nat (length rows) ∧
   ((∀ r, storable r = true) → Stats.chunks_created stats = Z.of_nat (length rows))).
Proof.
  unfold Flow.index_repository. destruct (negb _); [done|].
  simpl. unfold mbind, M_bind, bind. cbn.
  destruct (Flow.index_files _ _ _ _ _ _ _ _ _ _) as [[[i c]|e|] db1] eqn:Hfiles; [|done..].
  cbn. intros [= <- <-]. simpl.
  apply Table.index_files_counters in Hfiles as (Hi & Hc & Hzero & Hrows).
  simpl in *. split; [done|]. split; [done|]. split; [lia|]. split; [lia|].
  split; [lia|]. intros Hlen. destruct (Hrows Hlen) as [Hle Heq]. split; [lia|].
  intros Hst. specialize (Heq Hst). lia.
Qed.

End Service.
End Repository.

(** X10. [is_repository_indexed] answers [True] exactly when the table
    holds a row of the repository, and reads only.  After
    [_clear_repo_index] it answers [False] for the repository cleared;
    the rows and the answer of every other repository are as before,
    and clearing again changes nothing. *)
Theorem cleared_repository_is_not_indexed {Embedding : Type}
    (repo_path : string) (db : list (Row.t Embedding)) :
  let db' := snd (Flow._clear_repo_index repo_path db) in
  (∀ p, Status.is_repository_indexed p db
        = (Flow.Return true, db) ↔ ∃ r, r ∈ db ∧ Row.repo_path r = p) ∧
  (∀ p, snd (Status.is_repository_indexed p db) = db) ∧
  Flow._clear_repo_index repo_path db = (Flow.Return (), db') ∧
  Status.is_repository_indexed repo_path db' = (Flow.Return false, db') ∧
  (∀ r, r ∈ db' ↔ r ∈ db ∧ Row.repo_path r ≠ repo_path) ∧
  (∀ other, other ≠ repo_path →
     fst (Status.is_repository_indexed other db')
     = fst (Status.is_repository_indexed other db)) ∧
  Flow._clear_repo_index repo_path db' = (Flow.Return (), db').
Proof.
  intros db'. subst db'. unfold Flow._clear_repo_index, Status.is_repository_indexed.
  cbn [fst snd]. fold (Spec.others repo_path db).
  split; [|split; [done|split; [done|split; [|split; [|split]]]]].
  - intros p. split.
    + intros [= Hpos]. apply Z.ltb_lt in Hpos.
      destruct (List.filter _ db) as [|r rows] eqn:Hrows; [simpl in Hpos; lia|].
      assert (Hr : In r (List.filter (fun r => String.eqb (Row.repo_path r) p) db))
        by (rewrite Hrows; by left).
      apply filter_In in Hr as [Hr Hp]. exists r.
      split; [by apply list_elem_of_In|by apply String.eqb_eq].
    + intros (r & Hr & Hp). do 2 f_equal. apply Z.ltb_lt.
      assert (Hin : In r (List.filter (fun r => String.eqb (Row.repo_path r) p) db)).
      { apply filter_In. split; [by apply list_elem_of_In|by apply String.eqb_eq]. }
      destruct (List.filter _ db); [done|]. rewrite length_cons. lia.
  - by rewrite Table.select_cleared.
  - intros r. unfold Spec.others. rewrite !list_elem_of_In, filter_In.
    rewrite negb_true_iff, String.eqb_neq. done.
  - intros other Hne. by rewrite Table.select_others.
  - f_equal. apply (Table.others_idemp repo_path db).
Qed.

(** X11. Every row in the table after [index_repository] was there
    before the call, or belongs to the repository indexed and is one
    chunk of a candidate file that could be read: it carries the
    relative path of the file, its modification time, and the text,
    type, line range, language and metadata of the chunk. *)
Theorem stored_rows_are_chunks_of_candidates {Embedding : Type}
    (encode : list string → option (list Embedding))
    (storable : Row.t Embedding → bool) (MAX_CHUNK_SIZE CHUNK_OVERLAP : Z)
    (fs : gmap string Fs.node) (repo_path : string) (force : bool)
    (db : list (Row.t Embedding)) (r : Row.t Embedding) :
  r ∈ snd (Flow.index_repository encode storable MAX_CHUNK_SIZE CHUNK_OVERLAP fs
             repo_path force db) →
  r ∈ db ∨
  (Row.repo_path r = repo_path ∧
   ∃ file_path content mtime chunks c,
     file_path ∈ Flow._collect_files fs repo_path ∧
     Fs.lookup_file fs repo_path file_path = Some (Some content, mtime) ∧
     Chunking.smart_chunk (Fs.relpath file_path repo_path) content
       MAX_CHUNK_SIZE CHUNK_OVERLAP false = Some chunks ∧
     c ∈ chunks ∧
     Row.file_path r = Fs.relpath file_path repo_path ∧
     Row.file_mtime r = mtime ∧
     Row.chunk_text r = Chunking.chunk_text c ∧
     Row.chunk_type r = Chunking.chunk_type c ∧
     Row.start_line r = Chunking.start_line c ∧
     Row.end_line r = Chunking.end_line c ∧
     Row.language r = Chunking.language c ∧
     Row.metadata r = Chunking.metadata c).
Proof.
  rewrite Repository.index_repository_table. cbn [snd].
  intros [Hr|Hr]%elem_of_app.
  - left. destruct (force && _); [|done].
    by apply list_elem_of_In, filter_In in Hr as [Hr%list_elem_of_In _].
  - right. apply Repository.scan_rows in Hr as (f & Hf & Hr).
    apply Table.file_rows_chunks in Hr
      as (content & mtime & chunks & c & e & Hlook & Hchunks & Hc & ->).
    split; [done|]. by exists f, content, mtime, chunks, c.
Qed.

Lemma stored_rows_are_chunks_of_candidates_witness :
  ∃ r, Row.file_path r = "ok.py" ∧ Row.chunk_text r = "print(1)" ∧
       Row.start_line r = 1 ∧ Row.end_line r = 1 ∧
       (r ∈ Demo.db ∨ Row.repo_path r = "/repo").
Proof.
  set (r := Flow.chunk_row "/repo" "ok.py" 10
              (Chunking.whole_file_chunk "ok.py" "print(1)" "python" 1) 8).
  exists r. repeat (split; [reflexivity|]).
  destruct (stored_rows_are_chunks_of_candidates Demo.encode Demo.storable 500 100
              Demo.fs "/repo" false Demo.db r) as [Hold|[Hrepo _]].
  - vm_compute. do 2 apply list_elem_of_further. apply list_elem_of_here.
  - by left.
  - by right.
Defined.

(** X12. Indexing one repository leaves every other repository as it
    was: its rows are the same, in the same order, [is_repository_indexed]
    answers the same for it, and every search in it ends the same. *)
Theorem other_repositories_untouched {Embedding : Type}
    (encode : list string → option (list Embedding))
    (storable : Row.t Embedding → bool) (MAX_CHUNK_SIZE CHUNK_OVERLAP : Z)
    (fs : gmap string Fs.node) (repo_path other : string) (force : bool)
    (db : list (Row.t Embedding)) :
  other ≠ repo_path →
  let db' := snd (Flow.index_repository encode storable MAX_CHUNK_SIZE CHUNK_OVERLAP fs
                    repo_path force db) in
  List.filter (fun r => String.eqb (Row.repo_path r) other) db'
  = List.filter (fun r => String.eqb (Row.repo_path r) other) db ∧
  fst (Status.is_repository_indexed other db')
  = fst (Status.is_repository_indexed other db) ∧
  ∀ cosine_distance query limit threshold,
    fst (Flow.search encode cosine_distance query other limit threshold db')
    = fst (Flow.search encode cosine_distance query other limit threshold db).
Proof.
  intros Hne db'.
  assert (Hrows : List.filter (fun r => String.eqb (Row.repo_path r) other) db'
                  = List.filter (fun r => String.eqb (Row.repo_path r) other) db).
  { subst db'. rewrite Repository.index_repository_table. cbn [snd].
    rewrite List.filter_app.
    rewrite (Table.select_own repo_path other
               (snd (Flow.index_repository encode storable MAX_CHUNK_SIZE CHUNK_OVERLAP fs
                       repo_path false [])) Hne), app_nil_r.
    - destruct (force && _); [by apply Table.select_others|done].
    - intros r. apply Repository.scan_own. }
  split; [done|]. split.
  - unfold Status.is_repository_indexed. cbn [fst]. by rewrite Hrows.
  - intros cosine_distance query limit threshold. unfold Flow.search.
    destruct (encode [query]) as [[|q rest]|]; [done| |done].
    unfold mbind, Flow.M_bind, Flow.bind, Flow.select_nearest.
    destruct (limit * 2 <? 0); [done|]. cbn. by rewrite Hrows.
Qed.

Lemma other_repositories_untouched_witness :
  List.filter (fun r => String.eqb (Row.repo_path r) "/other")
    (snd (Flow.index_repository Demo.encode Demo.storable 500 100 Demo.fs
            "/repo" true Demo.db))
  = [Demo.stored "/other" "a.py" "abc" 3].
Proof.
  destruct (other_repositories_untouched Demo.encode Demo.storable 500 100 Demo.fs
              "/repo" "/other" true Demo.db) as (Hrows & _); [discriminate|].
  rewrite Hrows. reflexivity.
Defined.

(** X13. A forced index is idempotent: run again on the table it left,
    over the same files, it ends the same and leaves the same rows. *)
Theorem forced_index_idempotent {Embedding : Type}
    (encode : list string → option (list Embedding))
    (storable : Row.t Embedding → bool) (MAX_CHUNK_SIZE CHUNK_OVERLAP : Z)
    (fs : gmap string Fs.node) (repo_path : string) (db : list (Row.t Embedding)) :
  Flow.index_repository encode storable MAX_CHUNK_SIZE CHUNK_OVERLAP fs repo_path true
    (snd (Flow.index_repository encode storable MAX_CHUNK_SIZE CHUNK_OVERLAP fs
            repo_path true db))
  = Flow.index_repository encode storable MAX_CHUNK_SIZE CHUNK_OVERLAP fs repo_path true db.
Proof.
  pose proof (Repository.index_repository_table encode storable MAX_CHUNK_SIZE
                CHUNK_OVERLAP fs repo_path true) as Htable.
  rewrite (Htable db). cbn [snd andb]. rewrite (Htable (_ ++ _)%list). cbn [andb]. f_equal.
  destruct (Fs.exists_ fs repo_path) eqn:Hex.
  - rewrite Table.others_app, Table.others_idemp.
    rewrite (Table.others_own repo_path
               (snd (Flow.index_repository encode storable MAX_CHUNK_SIZE CHUNK_OVERLAP fs
                       repo_path false []))) by (intros r; apply Repository.scan_own).
    by rewrite app_nil_r.
  - unfold Flow.index_repository. rewrite Hex. simpl. by rewrite !app_nil_r.
Qed.

(** X14. An index that is not forced neither reads nor removes: it
    ends as a scan into the empty table does and appends the rows of
    that scan.  Run twice, it reports the same and stores every row
    twice. *)
Theorem unforced_index_appends {Embedding : Type}
    (encode : list string → option (list Embedding))
    (storable : Row.t Embedding → bool) (MAX_CHUNK_SIZE CHUNK_OVERLAP : Z)
    (fs : gmap string Fs.node) (repo_path : string) (db : list (Row.t Embedding)) :
  let index := Flow.index_repository encode storable MAX_CHUNK_SIZE CHUNK_OVERLAP fs
                 repo_path false in
  let fresh := snd (index []) in
  index db = (fst (index []), (db ++ fresh)%list) ∧
  index (snd (index db)) = (fst (index db), (db ++ fresh ++ fresh)%list) ∧
  ∀ r, r ∈ fresh → Row.repo_path r = repo_path.
Proof.
  intros index fresh. subst index fresh.
  pose proof (Repository.index_repository_table encode storable MAX_CHUNK_SIZE
                CHUNK_OVERLAP fs repo_path false) as Htable.
  cbn [andb] in Htable.
  split; [apply Htable|]. split; [|intros r; apply Repository.scan_own].
  rewrite (Htable db). cbn [fst snd]. rewrite (Htable (_ ++ _)%list).
  by rewrite <- app_assoc.
Qed.

(** X15. The statistics [index_repository] returns are consistent:
    they name the repository, [files_found] is the number of candidate
    files, [files_indexed] lies between 0 and [files_found] and is at
    most [chunks_created], and one is 0 exactly when the other is. *)
Theorem statistics_consistent {Embedding : Type}
    (encode : list string → option (list Embedding))
    (storable : Row.t Embedding → bool) (MAX_CHUNK_SIZE CHUNK_OVERLAP : Z)
    (fs : gmap string Fs.node) (repo_path : string) (force : bool)
    (db db' : list (Row.t Embedding)) (stats : Stats.t) :
  Flow.index_repository encode storable MAX_CHUNK_SIZE CHUNK_OVERLAP fs repo_path force db
    = (Flow.Return stats, db') →
  Stats.repo_path stats = repo_path ∧
  Stats.files_found stats = Z.of_nat (length (Flow._collect_files fs repo_path)) ∧
  0 <= Stats.files_indexed stats <= Stats.files_found stats ∧
  Stats.files_indexed stats <= Stats.chunks_created stats ∧
  (Stats.files_indexed stats = 0 ↔ Stats.chunks_created stats = 0).
Proof.
  rewrite Repository.index_repository_table. intros [= Hout _].
  destruct (Flow.index_repository _ _ _ _ _ _ false []) as [out rows] eqn:Hscan.
  simpl in Hout. subst out.
  by destruct (Repository.scan_counters _ _ _ _ _ _ _ _ Hscan) as (? & ? & ? & ? & ? & _).
Qed.

Lemma statistics_consistent_witness :
  ∃ stats db',
    Flow.index_repository Demo.encode Demo.storable 500 100 Demo.fs "/repo" true Demo.db
      = (Flow.Return stats, db') ∧
    0 <= Stats.files_indexed stats <= Stats.files_found stats ∧
    Stats.files_indexed stats <= Stats.chunks_created stats.
Proof.
  destruct (Flow.index_repository Demo.encode Demo.storable 500 100 Demo.fs "/repo" true
              Demo.db) as [[stats| |] db'] eqn:Hrun; [|by vm_compute in Hrun..].
  exists stats, db'. split; [done|].
  by destruct (statistics_consistent Demo.encode Demo.storable 500 100 Demo.fs "/repo" true
                 Demo.db db' stats Hrun) as (_ & _ & ? & ? & _).
Defined.

(** X16. With a model that returns one embedding for each text,
    [chunks_created] is at most the number of rows the call stored, and
    equals it when the data base refuses no row; whenever it is
    positive, [is_repository_indexed] answers [True] afterwards. *)
Theorem chunks_created_counts_rows {Embedding : Type}
    (encode : list string → option (list Embedding))
    (storable : Row.t Embedding → bool) (MAX_CHUNK_SIZE CHUNK_OVERLAP : Z)
    (fs : gmap string Fs.node) (repo_path : string) (force : bool)
    (db db' : list (Row.t Embedding)) (stats : Stats.t) :
  (∀ texts embeddings, encode texts = Some embeddings → length embeddings = length texts) →
  Flow.index_repository encode storable MAX_CHUNK_SIZE CHUNK_OVERLAP fs repo_path force db
    = (Flow.Return stats, db') →
  ∃ fresh,
    db' = ((if force then Spec.others repo_path db else db) ++ fresh)%list ∧
    Stats.chunks_created stats <= Z.of_nat (length fresh) ∧
    ((∀ r, storable r = true) → Stats.chunks_created stats = Z.of_nat (length fresh)) ∧
    (0 < Stats.chunks_created stats →
     Status.is_repository_indexed repo_path db' = (Flow.Return true, db')).
Proof.
  intros Hlen. rewrite Repository.index_repository_table. intros [= Hout <-].
  destruct (Flow.index_repository _ _ _ _ _ _ false []) as [out rows] eqn:Hscan.
  simpl in Hout. subst out. cbn [snd].
  destruct (Repository.scan_counters _ _ _ _ _ _ _ _ Hscan)
    as (_ & _ & _ & _ & _ & Hrows).
  destruct (Hrows Hlen) as [Hle Heq].
  assert (Hex : Fs.exists_ fs repo_path = true).
  { unfold Flow.index_repository in Hscan. by destruct (Fs.exists_ fs repo_path). }
  rewrite Hex, andb_true_r. exists rows. split; [done|]. split; [done|]. split; [done|].
  intros Hpos. unfold Status.is_repository_indexed. do 2 f_equal. apply Z.ltb_lt.
  rewrite List.filter_app, length_app.
  assert (Hown : List.filter (fun r => String.eqb (Row.repo_path r) repo_path) rows = rows).
  { assert (Hall : ∀ r, r ∈ rows → Row.repo_path r = repo_path).
    { intros r Hr. apply (Repository.scan_own encode storable MAX_CHUNK_SIZE CHUNK_OVERLAP fs).
      by rewrite Hscan. }
    clear -Hall. induction rows as [|r rows IH]; [done|]. simpl.
    rewrite (Hall r (list_elem_of_here _ _)), String.eqb_refl. f_equal.
    apply IH. intros; by apply Hall, list_elem_of_further. }
  rewrite Hown. lia.
Qed.

Lemma chunks_created_counts_rows_witness :
  ∃ stats db',
    Flow.index_repository Demo.encode (fun _ => true) 500 100 Demo.fs "/repo" true Demo.db
      = (Flow.Return stats, db') ∧
    Stats.chunks_created stats = Z.of_nat (length db') - 1 ∧
    Status.is_repository_indexed "/repo" db' = (Flow.Return true, db').
Proof.
  destruct (Flow.index_repository Demo.encode (fun _ => true) 500 100 Demo.fs "/repo" true
              Demo.db) as [[stats| |] db'] eqn:Hrun; [|by vm_compute in Hrun..].
  exists stats, db'. split; [done|].
  destruct (chunks_created_counts_rows Demo.encode (fun _ => true) 500 100 Demo.fs "/repo"
              true Demo.db db' stats) as (fresh & -> & _ & Heq & Hidx); [|exact Hrun|].
  - intros texts embeddings. unfold Demo.encode.
    destruct (existsb _ _); [done|]. intros [= <-]. apply length_fmap.
  - split.
    + rewrite (Heq (fun _ => eq_refl)), length_app. change (length (Spec.others "/repo" Demo.db)) with 1%nat. lia.
    + apply Hidx. vm_compute in Hrun. by injection Hrun as <- _.
Defined.

(** ** Searching: the ranking and the over-fetch *)

Module Ranking.
Import Flow Spec.

(** In a list sorted so that whatever passes is followed only by what
    its predecessors pass too, the elements that pass form a prefix:
    cutting the list at [k] loses none of the first [n <= k]. *)
Lemma filter_take_sorted {A} (R : A → A → Prop) (f : A → bool) (l : list A) :
  (∀ a b, R a b → f b = true → f a = true) →
  StronglySorted R l →
  ∀ n k, (n <= k)%nat →
    take n (List.filter f (take k l)) = take n (List.filter f l).
Proof.
  intros Hmono. induction 1 as [|x l Hl IH Hx]; intros n k Hnk.
  - by rewrite take_nil.
  - destruct k as [|k]; [by replace n with 0%nat by lia|].
    simpl. destruct (f x) eqn:Hfx.
    + destruct n as [|n]; [done|]. simpl. f_equal. apply IH. lia.
    + assert (Hnone : ∀ l', Forall (R x) l' → List.filter f l' = []).
      { induction 1 as [|y l' Hy _ IH']; [done|]. simpl.
        destruct (f y) eqn:Hfy; [|done]. rewrite (Hmono x y Hy Hfy) in Hfx. done. }
      rewrite (Hnone l Hx), (Hnone (take k l)); [done|by apply Forall_take].
Qed.

Section Distance.
Context {Embedding : Type}.
Variable cosine_distance : Embedding → Embedding → Q.
Variable q : Embedding.

Lemma insert_by_distance_perm r l :
  insert_by_distance cosine_distance q r l ≡ₚ r :: l.
Proof.
  induction l as [|r' l IH]; simpl; [done|].
  destruct (Qle_bool _ _); [done|]. rewrite IH. apply Permutation_swap.
Qed.

Lemma order_by_distance_perm rows : order_by_distance cosine_distance q rows ≡ₚ rows.
Proof.
  induction rows as [|r rows IH]; simpl; [done|].
  by rewrite insert_by_distance_perm, IH.
Qed.

End Distance.
End Ranking.

(** X17. [search] returns the best of the whole repository: with the
    rows of the repository ranked nearest first (each of them once)
    and scored [1 - distance], the result is the first [limit] of those
    with [score >= threshold], formatted.  Fetching only [2 * limit]
    candidates before filtering loses nothing. *)
Theorem search_returns_best_of_repository {Embedding : Type}
    (encode : list string → option (list Embedding))
    (cosine_distance : Embedding → Embedding → Q)
    (db : list (Row.t Embedding)) (query repo_path : string)
    (limit : Z) (threshold : Q) (q : Embedding) (rest : list Embedding) :
  0 <= limit →
  encode [query] = Some (q :: rest) →
  let rows := List.filter (fun r => String.eqb (Row.repo_path r) repo_path) db in
  let ranking := Flow.order_by_distance cosine_distance q rows in
  let scored := (fun r => (r, (1 - cosine_distance (Row.embedding r) q)%Q)) <$> ranking in
  ranking ≡ₚ rows ∧
  Spec.best_first scored ∧
  Flow.search encode cosine_distance query repo_path limit threshold db
  = (Flow.Return
       (take (Z.to_nat limit)
          (Flow.format_result <$>
             List.filter (fun row => Qle_bool threshold (snd row)) scored)), db).
Proof.
  intros Hlimit Henc rows ranking scored.
  assert (Hbest : Spec.best_first scored).
  { apply (StronglySorted_fmap _ (Spec.nearer cosine_distance q) _).
    - intros a b Hab. unfold Spec.nearer in Hab. simpl. lra.
    - apply Search.order_by_distance_sorted. }
  split; [apply Ranking.order_by_distance_perm|]. split; [done|].
  unfold Flow.search. rewrite Henc.
  unfold mbind, Flow.M_bind, Flow.bind, Flow.select_nearest.
  destruct (Z.ltb_spec (limit * 2) 0); [lia|]. cbn.
  rewrite Search.slice_to_take by done. unfold mret, Flow.M_ret, Flow.ret. do 2 f_equal.
  fold rows. fold ranking. rewrite fmap_take. fold scored.
  rewrite <- !fmap_take. f_equal.
  apply (Ranking.filter_take_sorted (fun a b : Row.t Embedding * Q => (snd b <= snd a)%Q));
    [|done|lia].
  intros a b Hab Hb%Qle_bool_iff. apply Qle_bool_iff. lra.
Qed.

Lemma search_returns_best_of_repository_witness :
  Result.file_path <$>
    take 1 (Flow.format_result <$>
              List.filter (fun row => Qle_bool (7 # 10) (snd row))
                ((fun r => (r, (1 - Demo.cosine_distance (Row.embedding r) 5)%Q)) <$>
                   Flow.order_by_distance Demo.cosine_distance 5
                     (List.filter (fun r => String.eqb (Row.repo_path r) "/repo")
                        Demo.indexed)))
  = ["same.py"] ∧
  Flow.search Demo.encode Demo.cosine_distance "parse" "/repo" 1 (7 # 10) Demo.indexed
  = (Flow.Return
       (take 1 (Flow.format_result <$>
                  List.filter (fun row => Qle_bool (7 # 10) (snd row))
                    ((fun r => (r, (1 - Demo.cosine_distance (Row.embedding r) 5)%Q)) <$>
                       Flow.order_by_distance Demo.cosine_distance 5
                         (List.filter (fun r => String.eqb (Row.repo_path r) "/repo")
                            Demo.indexed)))), Demo.indexed).
Proof.
  split; [reflexivity|].
  apply (search_returns_best_of_repository Demo.encode Demo.cosine_distance Demo.indexed
           "parse" "/repo" 1 (7 # 10) 5 []); [lia|reflexivity].
Defined.

(** ** The request handlers *)

Module Requests.
Import Flow.

Lemma search_ends {Embedding : Type} (encode : list string → option (list Embedding))
    (cosine_distance : Embedding → Embedding → Q) query repo_path limit threshold
    (db : list (Row.t Embedding)) :
  snd (search encode cosine_distance query repo_path limit threshold db) = db ∧
  fst (search encode cosine_distance query repo_path limit threshold db) ≠ Diverge.
Proof.
  unfold search. destruct (encode [query]) as [[|q rest]|]; [done| |done].
  unfold mbind, M_bind, bind, select_nearest. by destruct (limit * 2 <? 0).
Qed.

Lemma missing_false (field : option string) :
  Endpoints.missing field = false ↔ ∃ s, field = Some s ∧ s ≠ EmptyString.
Proof.
  destruct field as [[|a s]|]; simpl; split; try done.
  - by intros (s & [= <-] & ?).
  - intros _. by eexists.
  - by intros (s & [=] & ?).
Qed.

End Requests.

(** X18. [POST /search] always answers and never changes the table.
    It answers 500 when the service is not initialised, else 400 with
    ["query is required"] when the query is missing or empty, else 400
    with ["repo_path is required"] when the path is; any other failure
    is a 500 carrying the message of the exception [search] raised.  A
    success carries what [search] returned, called with the defaults 10
    and 0.7 for an absent limit and threshold, and its length. *)
Theorem search_request_answers {Embedding : Type}
    (encode : list string → option (list Embedding))
    (cosine_distance : Embedding → Embedding → Q)
    (flow : bool) (query repo_path : option string) (limit : option Z)
    (threshold : option Q) (duration_ms : Q) (db : list (Row.t Embedding)) :
  let run := Flow.search encode cosine_distance (default EmptyString query)
               (default EmptyString repo_path) (default 10 limit)
               (default (7 # 10)%Q threshold) db in
  ∃ reply,
    Endpoints.search encode cosine_distance flow query repo_path limit threshold
      duration_ms db = (Flow.Return reply, db) ∧
    reply =
      (if negb flow then Endpoints.Failure 500 "Service not initialized"
       else if Endpoints.missing query then Endpoints.Failure 400 "query is required"
       else if Endpoints.missing repo_path
            then Endpoints.Failure 400 "repo_path is required"
       else match fst run with
            | Flow.Return results =>
                Endpoints.Ok (results, Z.of_nat (length results), duration_ms)
            | Flow.Raise e => Endpoints.Failure 500 (App.message e)
            | Flow.Diverge => reply
            end) ∧
    fst run ≠ Flow.Diverge.
Proof.
  intros run. subst run.
  destruct (Requests.search_ends encode cosine_distance (default EmptyString query)
              (default EmptyString repo_path) (default 10 limit)
              (default (7 # 10)%Q threshold) db) as [Hdb Hends].
  unfold Endpoints.search.
  destruct flow; simpl; [|by eexists].
  destruct (Endpoints.missing query); [by eexists|].
  destruct (Endpoints.missing repo_path); [by eexists|].
  unfold Flow.try_except, mbind, Flow.M_bind, Flow.bind.
  destruct (Flow.search _ _ _ _ _ _ _) as [[results|e|] db1]; simpl in *; subst db1;
    [by eexists..|done].
Qed.

(** X19. With a chunk overlap below the chunk size, [POST /index]
    always answers, and a request that fails leaves the table as it
    was.  It succeeds exactly when the service is initialised, the
    request names a path and the path exists; the body then carries
    the statistics [index_repository] returned for the path and the
    force flag ([False] when absent).  A path that does not exist is
    answered 500 with ["Repository path does not exist: <path>"]. *)
Theorem index_request_answers {Embedding : Type}
    (encode : list string → option (list Embedding))
    (storable : Row.t Embedding → bool) (MAX_CHUNK_SIZE CHUNK_OVERLAP : Z)
    (fs : gmap string Fs.node)
    (flow : bool) (repo_path : option string) (force : option bool)
    (duration : Q) (db : list (Row.t Embedding)) :
  CHUNK_OVERLAP < MAX_CHUNK_SIZE →
  ∃ reply db',
    Endpoints.index_repository encode storable MAX_CHUNK_SIZE CHUNK_OVERLAP fs
      flow repo_path force duration db = (Flow.Return reply, db') ∧
    (∀ status error, reply = Endpoints.Failure status error → db' = db) ∧
    ((∃ body, reply = Endpoints.Ok body) ↔
     flow = true ∧ ∃ p, repo_path = Some p ∧ p ≠ EmptyString ∧ is_Some (fs !! p)) ∧
    (∀ stats seconds, reply = Endpoints.Ok (stats, seconds) →
       seconds = duration ∧
       Flow.index_repository encode storable MAX_CHUNK_SIZE CHUNK_OVERLAP fs
         (default EmptyString repo_path) (default false force) db
       = (Flow.Return stats, db')) ∧
    (flow = false → reply = Endpoints.Failure 500 "Service not initialized") ∧
    (flow = true → Endpoints.missing repo_path = true →
     reply = Endpoints.Failure 400 "repo_path is required") ∧
    (flow = true → ∀ p, repo_path = Some p → p ≠ EmptyString → fs !! p = None →
     reply = Endpoints.Failure 500 ("Repository path does not exist: " +:+ p)).
Proof.
  intros Hov. unfold Endpoints.index_repository.
  destruct flow; simpl.
  2:{ exists (Endpoints.Failure 500 "Service not initialized"), db.
      split; [done|]. split; [done|]. split; [|done].
      split; [by intros [? ?]|by intros [? _]]. }
  destruct (Endpoints.missing repo_path) eqn:Hmiss.
  { exists (Endpoints.Failure 400 "repo_path is required"), db.
    split; [done|]. split; [done|]. split; [|split; [done|split; [done|split; [done|]]]].
    - split; [by intros [? ?]|]. intros (_ & p & -> & Hp & _). by destruct p.
    - intros _ p -> Hp. by destruct p. }
  apply Requests.missing_false in Hmiss as (p & -> & Hp). simpl.
  unfold Flow.try_except, mbind, Flow.M_bind, Flow.bind.
  destruct (fs !! p) as [top|] eqn:Htop.
  - rewrite (Index.index_repository_existing encode storable MAX_CHUNK_SIZE CHUNK_OVERLAP
               fs p (default false force) db) by done.
    eexists _, _. split; [reflexivity|]. split; [done|].
    split; [|split; [|split; [done|split; [done|]]]].
    + split; [|by eexists]. intros _. split; [done|]. exists p. by rewrite Htop.
    + by intros stats seconds [= <- <-].
    + intros _ p' [= <-] _ Hnone. by rewrite Htop in Hnone.
  - rewrite (Index.index_repository_missing encode storable MAX_CHUNK_SIZE CHUNK_OVERLAP
               fs p (default false force) db Htop). simpl.
    eexists _, _. split; [reflexivity|]. split; [done|].
    split; [|split; [done|split; [done|split; [done|]]]].
    + split; [by intros [? ?]|]. intros (_ & p' & [= <-] & _ & Hsome).
      rewrite Htop in Hsome. by destruct Hsome.
    + by intros _ p' [= <-] _ _.
Qed.

Lemma index_request_answers_witness :
  ∃ reply db',
    Endpoints.index_repository Demo.encode Demo.storable 500 100 Demo.fs
      true (Some "/missing") None 0 Demo.db = (Flow.Return reply, db') ∧
    reply = Endpoints.Failure 500 "Repository path does not exist: /missing" ∧
    db' = Demo.db.
Proof.
  destruct (index_request_answers Demo.encode Demo.storable 500 100 Demo.fs
              true (Some "/missing") None 0 Demo.db)
    as (reply & db' & Hrun & Hkeep & _ & _ & _ & _ & Hpath); [lia|].
  exists reply, db'. split; [exact Hrun|].
  pose proof (Hpath eq_refl "/missing" eq_refl ltac:(discriminate) eq_refl) as Hreply.
  split; [exact Hreply|]. by eapply Hkeep.
Defined.

(** X20. [POST /reindex] is [POST /index] with [force] set: on the same
    request and table the two handlers leave the same table, fail with
    the same status and message, and on success [files_updated] and
    [chunks_created] are the [files_indexed] and [chunks_created] that
    [/index] reports. *)
Theorem reindex_is_index_with_force {Embedding : Type}
    (encode : list string → option (list Embedding))
    (storable : Row.t Embedding → bool) (MAX_CHUNK_SIZE CHUNK_OVERLAP : Z)
    (fs : gmap string Fs.node)
    (flow : bool) (repo_path : option string) (duration : Q)
    (db : list (Row.t Embedding)) :
  match Endpoints.index_repository encode storable MAX_CHUNK_SIZE CHUNK_OVERLAP fs
          flow repo_path (Some true) duration db,
        App.reindex encode storable MAX_CHUNK_SIZE CHUNK_OVERLAP fs
          flow repo_path duration db with
  | (Flow.Return (Endpoints.Ok (stats, seconds)), db1),
    (Flow.Return (App.ReindexOk files_updated chunks_created seconds'), db2) =>
      db1 = db2 ∧ files_updated = Stats.files_indexed stats ∧
      chunks_created = Stats.chunks_created stats ∧ seconds' = seconds
  | (Flow.Return (Endpoints.Failure status error), db1),
    (Flow.Return (App.Failure status' error'), db2) =>
      db1 = db2 ∧ status' = status ∧ error' = error
  | (Flow.Diverge, db1), (Flow.Diverge, db2) => db1 = db2
  | _, _ => False
  end.
Proof.
  unfold Endpoints.index_repository, App.reindex.
  destruct flow; simpl; [|done].
  destruct repo_path as [[|a p]|]; simpl; [done| |done].
  unfold Flow.try_except, mbind, Flow.M_bind, Flow.bind.
  by destruct (Flow.index_repository _ _ _ _ _ _ _ _) as [[stats|e|] db1].
Qed.

(** X21. With a model that returns one embedding for each text, a
    repository that [POST /reindex] reports at least one chunk for is
    reported as indexed by [POST /check-indexed] afterwards. *)
Theorem reindexed_repository_is_reported {Embedding : Type}
    (encode : list string → option (list Embedding))
    (storable : Row.t Embedding → bool) (MAX_CHUNK_SIZE CHUNK_OVERLAP : Z)
    (fs : gmap string Fs.node)
    (flow : bool) (repo_path : option string) (duration seconds : Q)
    (db db' : list (Row.t Embedding)) (files_updated chunks_created : Z) :
  (∀ texts embeddings, encode texts = Some embeddings → length embeddings = length texts) →
  App.reindex encode storable MAX_CHUNK_SIZE CHUNK_OVERLAP fs flow repo_path duration db
    = (Flow.Return (App.ReindexOk files_updated chunks_created seconds), db') →
  0 < chunks_created →
  ∃ p, repo_path = Some p ∧
       Endpoints.check_indexed flow repo_path db'
       = (Flow.Return (Endpoints.Ok (true, p)), db').
Proof.
  intros Hlen. unfold App.reindex, Endpoints.check_indexed.
  destruct flow; simpl; [|done].
  destruct repo_path as [[|a p]|]; simpl; [done| |done].
  unfold Flow.try_except, mbind, Flow.M_bind, Flow.bind.
  destruct (Flow.index_repository _ _ _ _ _ _ _ _) as [[stats|e|] db1] eqn:Hrun;
    simpl; [|done..].
  intros [= <- <- <- <-] Hpos. exists (String a p). split; [done|].
  rewrite Repository.index_repository_table in Hrun. injection Hrun as Hout Hdb.
  destruct (Flow.index_repository _ _ _ _ _ _ false []) as [out rows] eqn:Hscan.
  simpl in Hout, Hdb. subst out.
  destruct (Repository.scan_counters _ _ _ _ _ _ _ _ Hscan)
    as (_ & _ & _ & _ & _ & Hrows).
  destruct (Hrows Hlen) as [Hle _].
  unfold Status.is_repository_indexed. simpl.
  replace (0 <? _) with true; [done|]. symmetry. apply Z.ltb_lt.
  rewrite <- Hdb, List.filter_app, length_app.
  destruct rows as [|r rows]; [simpl in Hle; lia|]. simpl.
  rewrite (Repository.scan_own encode storable MAX_CHUNK_SIZE CHUNK_OVERLAP fs
             (String a p) r), String.eqb_refl; [|rewrite Hscan; apply list_elem_of_here].
  rewrite length_cons. lia.
Qed.

Lemma reindexed_repository_is_reported_witness :
  ∃ db' : list (Row.t Z),
    Endpoints.check_indexed true (Some "/repo") db'
    = (Flow.Return (Endpoints.Ok (true, "/repo")), db').
Proof.
  destruct (App.reindex Demo.encode Demo.storable 500 100 Demo.fs true (Some "/repo") 0
              Demo.db) as [[[fu cc s|st msg]| |] db'] eqn:Hrun;
    [|by vm_compute in Hrun..].
  exists db'.
  destruct (reindexed_repository_is_reported Demo.encode Demo.storable 500 100 Demo.fs
              true (Some "/repo") 0 s Demo.db db' fu cc) as (p & [= <-] & Hcheck);
    [| exact Hrun | | exact Hcheck].
  - intros texts embeddings. unfold Demo.encode.
    destruct (existsb _ _); [done|]. intros [= <-]. apply length_fmap.
  - vm_compute in Hrun. by injection Hrun as <- <- _ _.
Defined.

(** X22. For a chunk size of at least one line, every row that
    [index_repository] stores points into the file it comes from: its
    line range is not empty, lies within the lines of the file and
    spans at most [MAX_CHUNK_SIZE] lines, and its language is the one
    of its relative path. *)
Theorem stored_rows_point_into_their_file {Embedding : Type}
    (encode : list string → option (list Embedding))
    (storable : Row.t Embedding → bool) (MAX_CHUNK_SIZE CHUNK_OVERLAP : Z)
    (fs : gmap string Fs.node) (repo_path : string) (force : bool)
    (db : list (Row.t Embedding)) (r : Row.t Embedding) :
  1 <= MAX_CHUNK_SIZE →
  r ∈ snd (Flow.index_repository encode storable MAX_CHUNK_SIZE CHUNK_OVERLAP fs
             repo_path force db) →
  r ∈ db ∨
  ∃ file_path content mtime,
    file_path ∈ Flow._collect_files fs repo_path ∧
    Fs.lookup_file fs repo_path file_path = Some (Some content, mtime) ∧
    Row.file_path r = Fs.relpath file_path repo_path ∧
    1 <= Row.start_line r <= Row.end_line r ∧
    Row.end_line r <= total_lines content ∧
    Row.end_line r - Row.start_line r + 1 <= MAX_CHUNK_SIZE ∧
    Row.language r = get_language_from_extension (Row.file_path r).
Proof.
  intros Hmax. rewrite Repository.index_repository_table. cbn [snd].
  intros [Hr|Hr]%elem_of_app.
  - left. destruct (force && _); [|done].
    by apply list_elem_of_In, filter_In in Hr as [Hr%list_elem_of_In _].
  - right. apply Repository.scan_rows in Hr as (f & Hf & Hr).
    apply Table.file_rows_chunks in Hr
      as (content & mtime & chunks & c & e & Hlook & Hchunks & Hc & ->).
    exists f, content, mtime. split; [done|]. split; [done|]. split; [done|].
    apply list_elem_of_lookup in Hc as [i Hi].
    pose proof (ChunkCode.total_lines_pos content).
    unfold smart_chunk, chunk_code in Hchunks. simpl.
    destruct (ChunkMore.chunk_code_lookup _ _ _ _ _ _ _ _ Hchunks Hi)
      as [(Hle & _ & _ & ->)|(Hgt & Hov & s & _ & Hs & -> & _)]; simpl;
      repeat split; try done; lia.
Qed.

Lemma stored_rows_point_into_their_file_witness :
  ∃ r : Row.t Z,
    Row.file_path r = "ok.py" ∧
    (r ∈ Demo.db ∨ 1 <= Row.start_line r <= Row.end_line r).
Proof.
  set (r := Flow.chunk_row "/repo" "ok.py" 10
              (Chunking.whole_file_chunk "ok.py" "print(1)" "python" 1) 8).
  exists r. split; [reflexivity|].
  destruct (stored_rows_point_into_their_file Demo.encode Demo.storable 500 100
              Demo.fs "/repo" false Demo.db r)
    as [Hold|(f & content & mtime & _ & _ & _ & Hrange & _)].
  - lia.
  - vm_compute. do 2 apply list_elem_of_further. apply list_elem_of_here.
  - by left.
  - by right.
Defined.
